(** * anchorpy: the event parser of [anchorpy/program/event.py]

    A shallow embedding of [ExecutionContext], [LogScanner] and
    [EventParser], and the properties of the log scan stated over it.

    Python values are modelled as follows.
    - [str] is [string]; a log line is one [string].
    - An exception is a value of [exn]; a function that may raise returns
      a [result].
    - Calls that leave the parser (the scanner handing out a line, the
      base64 decoder, the coder, the callback) and the two stack mutations
      are recorded, in program order, in a trace of [obs]. *)

From Stdlib Require Import String Ascii List Bool Arith Lia.
From Stdlib Require Import Strings.Byte.
Import ListNotations.

Local Open Scope string_scope.
Local Open Scope list_scope.

(** ** Python string primitives *)

Module Str.

(** [s.startswith(p)] *)
Fixpoint startswith (s p : string) {struct p} : bool :=
  match p, s with
  | EmptyString, _ => true
  | String a p', String b s' => Ascii.eqb a b && startswith s' p'
  | String _ _, EmptyString => false
  end.

(** [sub in s] *)
Fixpoint contains (sub s : string) : bool :=
  startswith s sub
  || match s with
     | EmptyString => false
     | String _ s' => contains sub s'
     end.

(** [s[n:]] *)
Fixpoint slice_from (n : nat) (s : string) : string :=
  match n, s with
  | O, _ => s
  | S n', String _ s' => slice_from n' s'
  | S _, EmptyString => EmptyString
  end.

(** [s.split(sep)] for a non-empty [sep]: the text is cut at each
    occurrence of [sep], found left to right without overlap.  [skip]
    counts the characters of a separator just matched that are still to
    be passed over.  The head of the result is the piece being built. *)
Fixpoint split_go (sep : string) (skip : nat) (s : string) : list string :=
  match s with
  | EmptyString => [EmptyString]
  | String c s' =>
      match skip with
      | S k => split_go sep k s'
      | O =>
          if startswith s sep
          then EmptyString :: split_go sep (String.length sep - 1) s'
          else match split_go sep O s' with
               | piece :: pieces => String c piece :: pieces
               | [] => [String c EmptyString]
               end
      end
  end.

Definition split (s sep : string) : list string := split_go sep O s.

End Str.

(** ** Exceptions and results *)

Inductive exn : Set :=
| ValueError
| IndexError
| AttributeError
| BinasciiError.

Inductive result (A : Type) : Type :=
| Ok (a : A)
| Raise (e : exn).
Arguments Ok {A} a.
Arguments Raise {A} e.

Definition rbind {A B : Type} (r : result A) (f : A -> result B) : result B :=
  match r with
  | Ok a => f a
  | Raise e => Raise e
  end.

(** [l[i]] for a non-negative literal index. *)
Definition getitem {A : Type} (l : list A) (i : nat) : result A :=
  match nth_error l i with
  | Some a => Ok a
  | None => Raise IndexError
  end.

Definition bytes : Set := list byte.

(** ** Observations *)

Section Observations.

Variable Event : Type.

Inductive obs : Type :=
| ToNext (line : option string)   (* [LogScanner.to_next] returned [line] *)
| B64decode (s : string)          (* [b64decode(s)] was called *)
| EventsParse (b : bytes)         (* [coder.events.parse(b)] was called *)
| Callback (e : Event)            (* [callback(e)] was called *)
| Push (p : string)               (* [execution.push(p)] *)
| Pop.                            (* [execution.pop()] removed an entry *)

(** A computation: what it did, then how it ended. *)
Definition M (A : Type) : Type := (list obs * result A)%type.

Definition ret {A : Type} (a : A) : M A := ([], Ok a).

Definition raise {A : Type} (e : exn) : M A := ([], Raise e).

Definition lift {A : Type} (r : result A) : M A := ([], r).

Definition tell (o : obs) : M unit := ([o], Ok tt).

Definition bind {A B : Type} (m : M A) (f : A -> M B) : M B :=
  match m with
  | (t, Ok a) => let (t', r) := f a in (t ++ t', r)
  | (t, Raise e) => (t, Raise e)
  end.

(** [m], after the observations [os]. *)
Definition prefixed {A : Type} (os : list obs) (m : M A) : M A :=
  (os ++ fst m, snd m).

Fixpoint callbacks (t : list obs) : list Event :=
  match t with
  | [] => []
  | Callback e :: t' => e :: callbacks t'
  | _ :: t' => callbacks t'
  end.

Fixpoint parse_calls (t : list obs) : list bytes :=
  match t with
  | [] => []
  | EventsParse b :: t' => b :: parse_calls t'
  | _ :: t' => parse_calls t'
  end.

Fixpoint reads (t : list obs) : list (option string) :=
  match t with
  | [] => []
  | ToNext l :: t' => l :: reads t'
  | _ :: t' => reads t'
  end.

Fixpoint pushes (t : list obs) : nat :=
  match t with
  | [] => 0
  | Push _ :: t' => S (pushes t')
  | _ :: t' => pushes t'
  end.

Fixpoint pops (t : list obs) : nat :=
  match t with
  | [] => 0
  | Pop :: t' => S (pops t')
  | _ :: t' => pops t'
  end.

End Observations.

Arguments ToNext {Event} line.
Arguments B64decode {Event} s.
Arguments EventsParse {Event} b.
Arguments Callback {Event} e.
Arguments Push {Event} p.
Arguments Pop {Event}.
Arguments ret {Event A} a.
Arguments raise {Event A} e.
Arguments lift {Event A} r.
Arguments tell {Event} o.
Arguments bind {Event A B} m f.
Arguments prefixed {Event A} os m.
Arguments callbacks {Event} t.
Arguments parse_calls {Event} t.
Arguments reads {Event} t.
Arguments pushes {Event} t.
Arguments pops {Event} t.

Declare Scope py_scope.
Delimit Scope py_scope with py.

Notation "x <- m ;; k" := (bind m (fun x => k))
  (at level 61, m at next level, right associativity) : py_scope.
Notation "m ;; k" := (bind m (fun _ => k))
  (at level 61, right associativity) : py_scope.
Notation "x <~ r ;; k" := (rbind r (fun x => k))
  (at level 61, r at next level, right associativity) : py_scope.

Local Open Scope py_scope.

(** ** The program *)

(** [LOG_START_INDEX = len("Program log: ")] *)
Definition LOG_START_INDEX : nat := String.length "Program log: ".

(** *** [class ExecutionContext] *)

Record ExecutionContext : Set := { stack : list string }.

(** [ExecutionContext.__init__].  [parse_logs] passes whatever
    [to_next] returned, a line or [None]; [None] has no [split].  An
    [IndexError] of the body is turned into a [ValueError]. *)
Definition ExecutionContext_init (log : option string) : result ExecutionContext :=
  match log with
  | None => Raise AttributeError
  | Some log =>
      match (after <~ getitem (Str.split log "Program ") 1 ;;
             getitem (Str.split after " invoke [") 0) with
      | Ok program => Ok {| stack := [program] |}
      | Raise IndexError => Raise ValueError
      | Raise e => Raise e
      end
  end.

(** [ExecutionContext.program]: [self.stack[-1]] *)
Definition program (execution : ExecutionContext) : result string :=
  match rev (stack execution) with
  | top :: _ => Ok top
  | [] => Raise IndexError
  end.

(** ** An instance of the collaborators

    The decoder and the coder are parameters of the parser.  The concrete
    runs below use this instance: a model of [base64.b64decode] on a
    [str], with the default [validate=False], and a coder that recognises
    the payloads starting with the byte [01]. *)

Module Demo.

Definition sextet (c : ascii) : option nat :=
  let n := nat_of_ascii c in
  if ((65 <=? n) && (n <=? 90))%nat then Some (n - 65)
  else if ((97 <=? n) && (n <=? 122))%nat then Some (n - 71)
  else if ((48 <=? n) && (n <=? 57))%nat then Some (n + 4)
  else if (n =? 43)%nat then Some 62
  else if (n =? 47)%nat then Some 63
  else None.

Definition octet (n : nat) : byte :=
  match Byte.of_nat (n mod 256) with
  | Some b => b
  | None => x00
  end.

Definition is_pad (c : ascii) : bool := Ascii.eqb c "=".

(** [binascii.a2b_base64] without [strict_mode], as CPython 3.11 has it.
    A character outside the alphabet is skipped.  A [=] counts as padding
    once two characters of the quad have been read, and the padding that
    completes the quad ends the input, whatever follows; any other [=]
    is skipped.  An input that ends inside a quad is refused.
    [quad_pos] is the position in the quad, [leftchar] the bits left over
    from the character before, [pads] the padding read in this quad. *)
Fixpoint a2b_base64 (quad_pos leftchar pads : nat) (s : string)
  : option bytes :=
  match s with
  | EmptyString => if (quad_pos =? 0)%nat then Some [] else None
  | String c rest =>
      if is_pad c then
        if (2 <=? quad_pos)%nat then
          if (4 <=? quad_pos + S pads)%nat then Some []
          else a2b_base64 quad_pos leftchar (S pads) rest
        else a2b_base64 quad_pos leftchar pads rest
      else
        match sextet c with
        | None => a2b_base64 quad_pos leftchar pads rest
        | Some v =>
            match quad_pos with
            | 0 => a2b_base64 1 v 0 rest
            | 1 =>
                option_map (cons (octet (leftchar * 4 + v / 16)))
                  (a2b_base64 2 (v mod 16) 0 rest)
            | 2 =>
                option_map (cons (octet (leftchar * 16 + v / 4)))
                  (a2b_base64 3 (v mod 4) 0 rest)
            | _ =>
                option_map (cons (octet (leftchar * 64 + v)))
                  (a2b_base64 0 0 0 rest)
            end
        end
  end.

Fixpoint is_ascii (s : string) : bool :=
  match s with
  | EmptyString => true
  | String c s' => (nat_of_ascii c <? 128)%nat && is_ascii s'
  end.

(** [base64.b64decode(s)] for a [str]: the text is encoded as ASCII
    first, which raises a [ValueError] on a character outside ASCII;
    [a2b_base64] raises [binascii.Error]. *)
Definition b64decode (s : string) : result bytes :=
  if is_ascii s then
    match a2b_base64 0 0 0 s with
    | Some b => Ok b
    | None => Raise BinasciiError
    end
  else Raise ValueError.

(** A payload of one character outside ASCII, [U+00E9]. *)
Definition e_acute : string := String "233"%char EmptyString.

Definition Event : Set := bytes.

Definition events_parse (b : bytes) : option Event :=
  match b with
  | x01 :: fields => Some fields
  | _ => None
  end.

End Demo.

Section Parser.

Variable Event : Type.

(** [base64.b64decode], from the standard library. *)
Variable b64decode : string -> result bytes.

(** [self.coder.events.parse]: bytes to an event, or [None]. *)
Variable events_parse : bytes -> option Event.

(** [str(self.program_id)] *)
Variable program_id : string.

Local Abbreviation M := (M Event).

(** [ExecutionContext.push] *)
Definition push (execution : ExecutionContext) (new_program : string)
  : M ExecutionContext :=
  tell (Push new_program) ;;
  ret {| stack := stack execution ++ [new_program] |}.

(** [ExecutionContext.pop]: [list.pop()] raises on an empty list. *)
Definition pop (execution : ExecutionContext) : M ExecutionContext :=
  match stack execution with
  | [] => raise IndexError
  | _ :: _ =>
      tell Pop ;;
      ret {| stack := removelast (stack execution) |}
  end.

(** *** [class EventParser] *)

(** [EventParser.handle_system_log] *)
Definition handle_system_log (log : string) : result (option string * bool) :=
  log_start <~ getitem (Str.split log ":") 0 ;;
  after <~ getitem (Str.split log_start "Program ") 1 ;;
  token <~ getitem (Str.split after " ") 1 ;;
  if token =? "success" then Ok (None, true)
  else if Str.startswith log_start ("Program " ++ program_id ++ " invoke")
  then Ok (Some program_id, false)
  else if Str.contains "invoke" log_start then Ok (Some "cpi", false)
  else Ok (None, false).

(** [(None, *self.handle_system_log(log))] *)
Definition system_log (log : string)
  : M (option Event * option string * bool) :=
  r <- lift (handle_system_log log) ;;
  ret (None, fst r, snd r).

(** [EventParser.handle_program_log] *)
Definition handle_program_log (log : string)
  : M (option Event * option string * bool) :=
  if Str.startswith log "Program log:" then
    let log_str := Str.slice_from LOG_START_INDEX log in
    tell (B64decode log_str) ;;
    match b64decode log_str with
    | Ok decoded =>
        tell (EventsParse decoded) ;;
        ret (events_parse decoded, None, false)
    | Raise BinasciiError => ret (None, None, false)
    | Raise e => raise e
    end
  else system_log log.

(** [EventParser.handle_log] *)
Definition handle_log (execution : ExecutionContext) (log : string)
  : M (option Event * option string * bool) :=
  match stack execution with
  | [] => system_log log
  | _ :: _ =>
      current <- lift (program execution) ;;
      if current =? program_id
      then handle_program_log log
      else system_log log
  end.

(** The body of the [while] loop of [parse_logs], for the line [log]. *)
Definition step (execution : ExecutionContext) (log : string)
  : M ExecutionContext :=
  r <- handle_log execution log ;;
  let '(event, new_program, did_pop) := r in
  match event with
  | Some e => tell (Callback e)
  | None => ret tt
  end ;;
  execution1 <- match new_program with
                | Some p => push execution p
                | None => ret execution
                end ;;
  if did_pop then pop execution1 else ret execution1.

(** *** [class LogScanner] *)

Record LogScanner : Set := { logs : list string }.

(** [LogScanner.to_next] *)
Definition to_next (log_scanner : LogScanner) : option string * LogScanner :=
  match logs log_scanner with
  | log :: rest => (Some log, {| logs := rest |})
  | [] => (None, log_scanner)
  end.

(** The [while] loop of [parse_logs] together with the [to_next] call
    that feeds it: each round asks the scanner for a line, leaves the
    loop on [None] and runs the body otherwise.  [remaining] is the
    scanner's [logs]. *)
Fixpoint scan (execution : ExecutionContext) (remaining : list string)
  : M ExecutionContext :=
  match remaining with
  | [] => tell (ToNext None) ;; ret execution
  | log :: rest =>
      tell (ToNext (Some log)) ;;
      execution' <- step execution log ;;
      scan execution' rest
  end.

(** [parse_logs] with its local [execution] returned. *)
Definition parse_logs_execution (lines : list string) : M ExecutionContext :=
  let (first, log_scanner) := to_next {| logs := lines |} in
  tell (ToNext first) ;;
  execution <- lift (ExecutionContext_init first) ;;
  scan execution (logs log_scanner).

(** [EventParser.parse_logs] *)
Definition parse_logs (lines : list string) : M unit :=
  parse_logs_execution lines ;; ret tt.


(** ** Vocabulary of the statements *)

(** The test of [handle_log]: the stack is not empty and its last entry
    is the target. *)
Definition target_on_top (execution : ExecutionContext) : bool :=
  match rev (stack execution) with
  | top :: _ => top =? program_id
  | [] => false
  end.

(** The line is taken by the [msg!] branch of [handle_program_log]; every
    other line is left to [handle_system_log]. *)
Definition authored (execution : ExecutionContext) (log : string) : bool :=
  target_on_top execution && Str.startswith log "Program log:".

(** The rounds of the loop over [lines], without the [to_next] that ends
    the loop. *)
Fixpoint rounds (execution : ExecutionContext) (lines : list string)
  : M ExecutionContext :=
  match lines with
  | [] => ret execution
  | log :: rest =>
      tell (ToNext (Some log)) ;;
      execution' <- step execution log ;;
      rounds execution' rest
  end.

(** What one round may leave in the trace after reading [log]. *)
Inductive round_obs (log : string) : list (obs Event) -> Prop :=
| round_silent : round_obs log []
| round_push (p : string) : round_obs log [Push p]
| round_pop : round_obs log [Pop]
| round_undecoded :
    round_obs log [B64decode (Str.slice_from LOG_START_INDEX log)]
| round_no_event (decoded : bytes) :
    b64decode (Str.slice_from LOG_START_INDEX log) = Ok decoded ->
    events_parse decoded = None ->
    round_obs log [B64decode (Str.slice_from LOG_START_INDEX log);
                   EventsParse decoded]
| round_event (decoded : bytes) (e : Event) :
    b64decode (Str.slice_from LOG_START_INDEX log) = Ok decoded ->
    events_parse decoded = Some e ->
    round_obs log [B64decode (Str.slice_from LOG_START_INDEX log);
                   EventsParse decoded; Callback e].

(** A trace of [parse_logs] over [lines]: one block per line read, each
    opened by the read of its line, until the scanner is exhausted or an
    exception cuts the scan. *)
Inductive scan_trace : list string -> list (obs Event) -> Prop :=
| trace_cut (lines : list string) : scan_trace lines []
| trace_end : scan_trace [] [ToNext None]
| trace_round (log : string) (rest : list string) (os t : list (obs Event)) :
    round_obs log os ->
    scan_trace rest t ->
    scan_trace (log :: rest) (ToNext (Some log) :: os ++ t).

(** The events the coder returned, call by call. *)
Definition decoded_events (t : list (obs Event)) : list Event :=
  flat_map (fun b => match events_parse b with
                     | Some e => [e]
                     | None => []
                     end) (parse_calls t).

(** The executions the rounds over [lines] leave, round by round, up to
    the first round that raises. *)
Fixpoint states (execution : ExecutionContext) (lines : list string)
  : list ExecutionContext :=
  match lines with
  | [] => []
  | log :: rest =>
      match step execution log with
      | (_, Ok execution') => execution' :: states execution' rest
      | (_, Raise _) => []
      end
  end.

(** The depth of the stack after [__init__] and after each round. *)
Definition stack_depths (lines : list string) : list nat :=
  match lines with
  | [] => []
  | first :: rest =>
      match ExecutionContext_init (Some first) with
      | Ok execution =>
          map (fun e => List.length (stack e)) (execution :: states execution rest)
      | Raise _ => []
      end
  end.

(** The answer, and the scanner left, of the call of [to_next] that
    comes after [k] earlier calls on [log_scanner]. *)
Fixpoint nth_to_next (k : nat) (log_scanner : LogScanner)
  : option string * LogScanner :=
  match k with
  | O => to_next log_scanner
  | S k' => nth_to_next k' (snd (to_next log_scanner))
  end.

(** The identifiers pushed in [t], in order. *)
Fixpoint pushed (t : list (obs Event)) : list string :=
  match t with
  | [] => []
  | Push p :: t' => p :: pushed t'
  | _ :: t' => pushed t'
  end.

(** An identifier as the runtime prints one: it has no space and no
    colon, and it does not end in [Program], so that no marker ends at
    the space that follows it. *)
Definition plain_identifier (id : string) : Prop :=
  Str.contains " " id = false
  /\ Str.contains ":" id = false
  /\ Str.contains "Program " (id ++ " ") = false.

(** The stacks of a scan seeded with [seed]: the seeded entry at the
    bottom, as long as it has not been popped, under entries that are
    the target or [cpi]. *)
Definition seeded_stack (seed : string) (st : list string) : Prop :=
  exists entries : list string,
    (st = entries \/ st = seed :: entries)
    /\ Forall (fun p => p = program_id \/ p = "cpi") entries.

(** The text after [invoke [] in an invocation line, such as [1]]. *)
Definition plain_depth (depth : string) : Prop :=
  Str.contains ":" depth = false
  /\ Str.contains "Program " depth = false.

(** The line the runtime writes when the program [id] is invoked. *)
Definition invoke_line (id depth : string) : string :=
  "Program " ++ id ++ " invoke [" ++ depth.

(** The line the runtime writes when the program [id] returns. *)
Definition success_line (id : string) : string :=
  "Program " ++ id ++ " success".

(** The lines of a well-formed log that open and close nothing, by their
    text.  [top] is the program whose invocation the line stands in, or
    [None] outside every invocation.  A line may be a [msg!] line, in an
    invocation of the target only, with a payload that [b64decode]
    decodes or refuses with [binascii.Error]; or a line
    [Program <id> <word> ...] without a colon, where [word] is not
    [success] and the line does not hold [invoke]. *)
Inductive quiet_line (top : option string) : string -> Prop :=
| quiet_msg (log : string) :
    top = Some program_id ->
    Str.startswith log "Program log:" = true ->
    (forall e, b64decode (Str.slice_from LOG_START_INDEX log) = Raise e ->
               e = BinasciiError) ->
    quiet_line top log
| quiet_word (id word tail : string) :
    Str.contains " " id = false ->
    Str.contains " " word = false ->
    Str.contains ":" (id ++ " " ++ word ++ " " ++ tail) = false ->
    Str.contains "Program " (id ++ " " ++ word ++ " " ++ tail) = false ->
    Str.contains "invoke" (id ++ " " ++ word ++ " " ++ tail) = false ->
    word <> "success" ->
    quiet_line top ("Program " ++ id ++ " " ++ word ++ " " ++ tail).

(** Well-nested lines, by their text: quiet lines, and invocations of
    plain identifiers, each opened by its invocation line and closed by
    the success line of the same identifier, with well-nested lines in
    between. *)
Inductive body : option string -> list string -> Prop :=
| body_nil (top : option string) : body top []
| body_quiet (top : option string) (log : string) (rest : list string) :
    quiet_line top log ->
    body top rest ->
    body top (log :: rest)
| body_call (top : option string) (id depth : string)
    (inner rest : list string) :
    plain_identifier id ->
    plain_depth depth ->
    body (Some id) inner ->
    body top rest ->
    body top (invoke_line id depth :: inner ++ success_line id :: rest).

(** An input in which every outermost invocation closes: the first
    outermost invocation, of [id], opened by the first line, with the
    lines [inner] in it, and then the lines [more] outside every
    invocation. *)
Definition closed_log (id depth : string) (inner more : list string)
  : list string :=
  invoke_line id depth :: inner ++ success_line id :: more.

(** The input [closed_log id depth inner more] is well formed. *)
Definition well_formed (id depth : string) (inner more : list string)
  : Prop :=
  plain_identifier id
  /\ plain_depth depth
  /\ body (Some id) inner
  /\ body None more.

(** The events a round over [log] is to hand to the callback, from the
    text of the line and the answers of the collaborators: the event of
    a [msg!] line met with the target on top, if [b64decode] returns
    bytes and the coder an event for them. *)
Definition delivered (execution : ExecutionContext) (log : string)
  : list Event :=
  if authored execution log then
    match b64decode (Str.slice_from LOG_START_INDEX log) with
    | Ok decoded =>
        match events_parse decoded with
        | Some e => [e]
        | None => []
        end
    | Raise _ => []
    end
  else [].

(** The events to deliver over [lines], line by line, until a round
    raises. *)
Fixpoint expected_events (execution : ExecutionContext) (lines : list string)
  : list Event :=
  match lines with
  | [] => []
  | log :: rest =>
      delivered execution log
      ++ match step execution log with
         | (_, Ok execution') => expected_events execution' rest
         | (_, Raise _) => []
         end
  end.

(** The events to deliver over a whole input. *)
Definition expected_callbacks (lines : list string) : list Event :=
  match lines with
  | [] => []
  | first :: rest =>
      match ExecutionContext_init (Some first) with
      | Ok execution => expected_events execution rest
      | Raise _ => []
      end
  end.

(** * Properties *)

(** ** Strings *)

Lemma startswith_app (p s : string) :
  Str.startswith s p = true -> exists rest, s = (p ++ rest)%string.
Proof.
  revert s; induction p as [|a p IH]; intros s H.
  - exists s; reflexivity.
  - destruct s as [|b s]; simpl in H; [discriminate|].
    apply andb_true_iff in H as [Hab Hp].
    apply Ascii.eqb_eq in Hab; subst b.
    destruct (IH _ Hp) as [rest ->].
    exists rest; reflexivity.
Qed.

Lemma startswith_prefix (p rest : string) :
  Str.startswith (p ++ rest)%string p = true.
Proof.
  induction p as [|a p IH]; simpl; [reflexivity|].
  rewrite Ascii.eqb_refl; exact IH.
Qed.

Lemma split_go_cons (sep : string) (skip : nat) (s : string) :
  exists piece pieces, Str.split_go sep skip s = piece :: pieces.
Proof.
  revert skip; induction s as [|c s IH]; intros skip; simpl.
  - eauto.
  - destruct skip as [|k]; [|apply IH].
    destruct (Str.startswith (String c s) sep); [eauto|].
    destruct (IH 0) as (piece & pieces & ->); eauto.
Qed.

(** A text in which the separator does not occur is not cut. *)
Lemma split_absent (sep s : string) :
  Str.contains sep s = false -> Str.split s sep = [s].
Proof.
  unfold Str.split.
  induction s as [|c s IH]; intros H; simpl in *.
  - reflexivity.
  - apply orb_false_iff in H as [Hp Hc].
    rewrite Hp, (IH Hc); reflexivity.
Qed.

(** A text in which the separator occurs is cut in two pieces at least. *)
Lemma split_present (sep s : string) :
  sep <> EmptyString ->
  Str.contains sep s = true -> 2 <= List.length (Str.split s sep).
Proof.
  intros Hsep; unfold Str.split.
  induction s as [|c s IH]; intros H; simpl in H.
  - destruct sep; [congruence|discriminate].
  - simpl. destruct (Str.startswith (String c s) sep).
    + destruct (split_go_cons sep (String.length sep - 1) s) as (p & ps & ->).
      simpl; lia.
    + simpl in H. specialize (IH H).
      destruct (Str.split_go sep 0 s) as [|p ps]; simpl in *; lia.
Qed.

Lemma getitem_1_absent (sep s : string) :
  Str.contains sep s = false -> getitem (Str.split s sep) 1 = Raise IndexError.
Proof. intros H; rewrite (split_absent _ _ H); reflexivity. Qed.

Lemma getitem_1_present (sep s : string) :
  sep <> EmptyString ->
  Str.contains sep s = true -> exists piece, getitem (Str.split s sep) 1 = Ok piece.
Proof.
  intros Hsep H. pose proof (split_present _ _ Hsep H) as Hlen.
  destruct (Str.split s sep) as [|a [|b l]]; simpl in Hlen; try lia.
  exists b; reflexivity.
Qed.

Lemma getitem_0_split (sep s : string) :
  exists piece, getitem (Str.split s sep) 0 = Ok piece.
Proof.
  unfold Str.split.
  destruct (split_go_cons sep 0 s) as (p & ps & ->); exists p; reflexivity.
Qed.

(** The text before the first colon of a [msg!] line is [Program log]. *)
Lemma log_start_of_msg (log : string) :
  Str.startswith log "Program log:" = true ->
  getitem (Str.split log ":") 0 = Ok "Program log".
Proof.
  intros H. apply startswith_app in H as [rest ->].
  unfold Str.split; simpl.
  reflexivity.
Qed.

(** ** The trace monad *)

Lemma bind_ok {A B : Type} (t : list (obs Event)) (a : A) (f : A -> M B) :
  bind (t, Ok a) f = prefixed t (f a).
Proof. unfold bind, prefixed; destruct (f a); reflexivity. Qed.

Lemma bind_raise {A B : Type} (t : list (obs Event)) (e : exn) (f : A -> M B) :
  bind (t, Raise e) f = (t, Raise e).
Proof. reflexivity. Qed.

Lemma prefixed_nil {A : Type} (m : M A) : prefixed [] m = m.
Proof. destruct m; reflexivity. Qed.

Lemma prefixed_app {A : Type} (os os' : list (obs Event)) (m : M A) :
  prefixed os (prefixed os' m) = prefixed (os ++ os') m.
Proof. unfold prefixed; simpl; rewrite app_assoc; reflexivity. Qed.

Lemma bind_prefixed {A B : Type} (os : list (obs Event)) (m : M A) (f : A -> M B) :
  bind (prefixed os m) f = prefixed os (bind m f).
Proof.
  destruct m as [t [a|e]]; unfold prefixed; simpl.
  - destruct (f a); simpl; rewrite app_assoc; reflexivity.
  - reflexivity.
Qed.

Lemma bind_ret {A B : Type} (a : A) (f : A -> M B) : bind (ret a) f = f a.
Proof. unfold ret; rewrite bind_ok; apply prefixed_nil. Qed.

Lemma bind_tell {B : Type} (o : obs Event) (f : unit -> M B) :
  bind (tell o) f = prefixed [o] (f tt).
Proof. unfold tell; apply bind_ok. Qed.

Lemma bind_assoc {A B C : Type} (m : M A) (f : A -> M B) (g : B -> M C) :
  bind (bind m f) g = bind m (fun a => bind (f a) g).
Proof.
  destruct m as [t [a|e]]; [|reflexivity].
  rewrite !bind_ok; apply bind_prefixed.
Qed.

(** ** One round of the loop *)

Lemma handle_log_top (execution : ExecutionContext) (log : string) :
  handle_log execution log =
  if target_on_top execution then handle_program_log log else system_log log.
Proof.
  unfold handle_log, target_on_top, program.
  destruct (stack execution) as [|p st] eqn:E; [reflexivity|].
  destruct (rev (p :: st)) as [|top l] eqn:R.
  - apply (f_equal (@List.length _)) in R.
    rewrite length_rev in R; discriminate.
  - unfold lift; rewrite bind_ok, prefixed_nil; reflexivity.
Qed.

Lemma target_on_top_snoc (st : list string) (top : string) :
  target_on_top {| stack := st ++ [top] |} = (top =? program_id).
Proof. unfold target_on_top; simpl; rewrite rev_app_distr; reflexivity. Qed.

(** Off the [msg!] branch the line goes to [handle_system_log], and
    nothing is observed. *)
Lemma handle_log_system (execution : ExecutionContext) (log : string) :
  authored execution log = false ->
  handle_log execution log = system_log log.
Proof.
  unfold authored; intros H; rewrite handle_log_top.
  destruct (target_on_top execution); [|reflexivity].
  change (Str.startswith log "Program log:" = false) in H.
  unfold handle_program_log; rewrite H; reflexivity.
Qed.

Lemma system_log_eq (log : string) :
  system_log log =
  ([], match handle_system_log log with
       | Ok (new_program, did_pop) => Ok (None, new_program, did_pop)
       | Raise e => Raise e
       end).
Proof.
  unfold system_log, lift.
  destruct (handle_system_log log) as [[np dp]|e]; reflexivity.
Qed.

(** A [msg!] line handed to [handle_system_log] has no second token. *)
Lemma handle_system_log_msg (log : string) :
  Str.startswith log "Program log:" = true ->
  handle_system_log log = Raise IndexError.
Proof.
  intros H; unfold handle_system_log.
  rewrite (log_start_of_msg _ H); reflexivity.
Qed.

(** The round, from what [handle_log] answered. *)
Lemma step_of_handle_log (execution : ExecutionContext) (log : string)
  (t : list (obs Event)) (r : result (option Event * option string * bool)) :
  handle_log execution log = (t, r) ->
  step execution log =
  prefixed t
    match r with
    | Raise e => raise e
    | Ok (event, new_program, did_pop) =>
        prefixed match event with Some e => [Callback e] | None => [] end
          (execution1 <- match new_program with
                         | Some p => push execution p
                         | None => ret execution
                         end ;;
           if did_pop then pop execution1 else ret execution1)
    end.
Proof.
  intros H; unfold step; rewrite H.
  destruct r as [[[event np] dp]|e].
  2:{ unfold prefixed, raise; simpl; rewrite app_nil_r; reflexivity. }
  rewrite bind_ok. f_equal.
  destruct event as [e|].
  - rewrite bind_tell; reflexivity.
  - rewrite bind_ret, prefixed_nil; reflexivity.
Qed.

Lemma pop_snoc (st : list string) (top : string) :
  pop {| stack := st ++ [top] |} = ([Pop], Ok {| stack := st |}).
Proof.
  unfold pop; simpl.
  destruct (st ++ [top]) as [|a l] eqn:E.
  - destruct st; discriminate.
  - rewrite <- E, removelast_last; reflexivity.
Qed.

Lemma pop_empty : pop {| stack := [] |} = ([], Raise IndexError).
Proof. reflexivity. Qed.

(** ** The loop *)

Lemma scan_cons (execution : ExecutionContext) (log : string) (rest : list string) :
  scan execution (log :: rest) =
  prefixed [ToNext (Some log)]
    (execution' <- step execution log ;; scan execution' rest).
Proof. cbn [scan]; apply bind_tell. Qed.

Lemma rounds_cons (execution : ExecutionContext) (log : string) (rest : list string) :
  rounds execution (log :: rest) =
  prefixed [ToNext (Some log)]
    (execution' <- step execution log ;; rounds execution' rest).
Proof. cbn [rounds]; apply bind_tell. Qed.

(** One round of [scan], in terms of [to_next]. *)
Lemma scan_to_next (execution : ExecutionContext) (log_scanner : LogScanner) :
  scan execution (logs log_scanner) =
  match to_next log_scanner with
  | (None, _) => tell (ToNext None) ;; ret execution
  | (Some log, log_scanner') =>
      tell (ToNext (Some log)) ;;
      execution' <- step execution log ;;
      scan execution' (logs log_scanner')
  end.
Proof.
  unfold to_next; destruct (logs log_scanner); reflexivity.
Qed.

(** Scanning is the rounds over a prefix, then the scan of what is left. *)
Lemma scan_app (execution : ExecutionContext) (pre rest : list string) :
  scan execution (pre ++ rest) =
  (execution' <- rounds execution pre ;; scan execution' rest).
Proof.
  revert execution; induction pre as [|log pre IH]; intros execution.
  - cbn [app rounds]. rewrite bind_ret; reflexivity.
  - cbn [app]. rewrite scan_cons, rounds_cons, bind_prefixed, bind_assoc.
    f_equal.
    destruct (step execution log) as [t [ex|e]]; [|reflexivity].
    rewrite !bind_ok, IH; reflexivity.
Qed.

Lemma parse_logs_execution_cons (first : string) (rest : list string) :
  parse_logs_execution (first :: rest) =
  prefixed [ToNext (Some first)]
    (execution <- lift (ExecutionContext_init (Some first)) ;;
     scan execution rest).
Proof. unfold parse_logs_execution; cbn [to_next logs]; apply bind_tell. Qed.

(** ** The first line *)

Lemma marker_nonempty : "Program " <> EmptyString.
Proof. discriminate. Qed.

(** [__init__] raises its [ValueError] exactly on the lines without the
    [Program ] marker; the text [ invoke [] is not looked for. *)
Lemma init_value_error_iff (log : string) :
  ExecutionContext_init (Some log) = Raise ValueError
  <-> Str.contains "Program " log = false.
Proof.
  unfold ExecutionContext_init; split; intros H.
  - destruct (Str.contains "Program " log) eqn:C; [|reflexivity].
    destruct (getitem_1_present _ _ marker_nonempty C) as [after E].
    rewrite E in H; simpl in H.
    destruct (getitem_0_split " invoke [" after) as [p E'].
    rewrite E' in H; discriminate.
  - rewrite (getitem_1_absent _ _ H); reflexivity.
Qed.

Lemma init_ok_iff (log : string) :
  (exists execution, ExecutionContext_init (Some log) = Ok execution)
  <-> Str.contains "Program " log = true.
Proof.
  split.
  - intros [execution H].
    destruct (Str.contains "Program " log) eqn:C; [reflexivity|].
    apply init_value_error_iff in C; congruence.
  - intros C. unfold ExecutionContext_init.
    destruct (getitem_1_present _ _ marker_nonempty C) as [after ->]; simpl.
    destruct (getitem_0_split " invoke [" after) as [p ->]; eauto.
Qed.

(** A first line without the marker: the [ValueError] is raised with one
    line read and nothing else done. *)
Lemma parse_logs_unmarked_first_line (first : string) (rest : list string) :
  Str.contains "Program " first = false ->
  parse_logs (first :: rest) = ([ToNext (Some first)], Raise ValueError).
Proof.
  intros H; unfold parse_logs.
  rewrite parse_logs_execution_cons.
  apply init_value_error_iff in H; rewrite H; reflexivity.
Qed.

Lemma fst_parse_logs (lines : list string) :
  fst (parse_logs lines) = fst (parse_logs_execution lines).
Proof.
  unfold parse_logs.
  destruct (parse_logs_execution lines) as [t [ex|e]]; simpl;
    [apply app_nil_r|reflexivity].
Qed.

Lemma scan_trace_nonempty (execution : ExecutionContext) (lines : list string) :
  fst (scan execution lines) <> [].
Proof.
  destruct lines as [|log rest]; [discriminate|].
  rewrite scan_cons; discriminate.
Qed.

(** C4: [parse_logs] refuses a first line, with the [ValueError] of
    [__init__], one line read and nothing else done, exactly when the
    line has no [Program ] marker.  The line [Program A success] has the
    marker and not the text [ invoke []: it seeds the stack with
    [A success] and [parse_logs] returns normally, where the claim has
    it fail. *)
Theorem first_line_marker_only :
  (forall (first : string) (rest : list string),
     parse_logs (first :: rest) = ([ToNext (Some first)], Raise ValueError)
     <-> Str.contains "Program " first = false)
  /\ ExecutionContext_init (Some "Program A success")
     = Ok {| stack := ["A success"] |}
  /\ parse_logs ["Program A success"]
     = ([ToNext (Some "Program A success"); ToNext None], Ok tt).
Proof.
  split; [|split; reflexivity].
  intros first rest; split; [|apply parse_logs_unmarked_first_line].
  intros H.
  destruct (Str.contains "Program " first) eqn:C; [exfalso|reflexivity].
  apply init_ok_iff in C as [execution Hinit].
  apply (f_equal fst) in H.
  rewrite fst_parse_logs, parse_logs_execution_cons, Hinit in H.
  unfold lift in H; rewrite bind_ok, prefixed_nil in H; simpl in H.
  injection H as H.
  exact (scan_trace_nonempty _ _ H).
Qed.

(** C9, the empty input: [to_next] returns [None], [__init__] is given
    [None] and the scan ends on an [AttributeError], not on the
    [ValueError] of a malformed first line; the callback is not called. *)
Theorem empty_input_attribute_error :
  parse_logs [] = ([ToNext None], Raise AttributeError)
  /\ callbacks (fst (parse_logs [])) = [].
Proof. split; reflexivity. Qed.

(** ** Lines of other programs *)

(** While the target is not on top nothing leaves the parser: no line is
    passed to [b64decode] or to the coder. *)
Lemma handle_log_off_target_silent (execution : ExecutionContext) (log : string) :
  target_on_top execution = false ->
  fst (handle_log execution log) = [].
Proof.
  intros Htop; rewrite handle_log_top, Htop, system_log_eq; reflexivity.
Qed.

(** A [msg!] line met while the target is not on top is given to
    [handle_system_log]: neither decoder is called, and the round raises. *)
Lemma handle_log_msg_off_target (execution : ExecutionContext) (log : string) :
  target_on_top execution = false ->
  Str.startswith log "Program log:" = true ->
  handle_log execution log = ([], Raise IndexError).
Proof.
  intros Htop Hmsg.
  rewrite handle_log_top, Htop, system_log_eq, (handle_system_log_msg _ Hmsg).
  reflexivity.
Qed.

Lemma scan_msg_off_target (execution : ExecutionContext) (log : string)
  (rest : list string) :
  target_on_top execution = false ->
  Str.startswith log "Program log:" = true ->
  scan execution (log :: rest) = ([ToNext (Some log)], Raise IndexError).
Proof.
  intros Htop Hmsg.
  rewrite scan_cons.
  rewrite (step_of_handle_log _ _ _ _ (handle_log_msg_off_target _ _ Htop Hmsg)).
  reflexivity.
Qed.

Lemma parse_logs_execution_app (first : string) (pre rest : list string)
  (execution0 : ExecutionContext) :
  ExecutionContext_init (Some first) = Ok execution0 ->
  parse_logs_execution (first :: pre ++ rest) =
  prefixed [ToNext (Some first)]
    (execution <- rounds execution0 pre ;; scan execution rest).
Proof.
  intros H; rewrite parse_logs_execution_cons, H.
  unfold lift; rewrite bind_ok, prefixed_nil, scan_app; reflexivity.
Qed.

Lemma callbacks_app (t t' : list (obs Event)) :
  callbacks (t ++ t') = callbacks t ++ callbacks t'.
Proof.
  induction t as [|o t IH]; [reflexivity|].
  destruct o; simpl; rewrite IH; reflexivity.
Qed.

(** ** Undecodable payloads *)

Lemma handle_log_undecodable (execution : ExecutionContext) (log : string) :
  target_on_top execution = true ->
  Str.startswith log "Program log:" = true ->
  b64decode (Str.slice_from LOG_START_INDEX log) = Raise BinasciiError ->
  handle_log execution log
  = ([B64decode (Str.slice_from LOG_START_INDEX log)], Ok (None, None, false)).
Proof.
  intros Htop Hmsg Hb64.
  rewrite handle_log_top, Htop; unfold handle_program_log.
  rewrite Hmsg; cbv zeta; rewrite Hb64, bind_tell; reflexivity.
Qed.

(** X21: a [msg!] line of the target whose payload makes [b64decode]
    raise [binascii.Error], the one exception the parser catches, ends
    its round without an exception, with the one call to [b64decode]
    observed and no event, and with the stack as it was; the scan goes on
    over the lines that follow exactly as it would have from that stack,
    so that their events are delivered. *)
Theorem undecodable_payload_tolerated (execution : ExecutionContext)
  (log : string) (rest : list string) :
  target_on_top execution = true ->
  Str.startswith log "Program log:" = true ->
  b64decode (Str.slice_from LOG_START_INDEX log) = Raise BinasciiError ->
  step execution log
  = ([B64decode (Str.slice_from LOG_START_INDEX log)], Ok execution)
  /\ scan execution (log :: rest)
     = prefixed [ToNext (Some log);
                 B64decode (Str.slice_from LOG_START_INDEX log)]
         (scan execution rest)
  /\ callbacks (fst (scan execution (log :: rest)))
     = callbacks (fst (scan execution rest)).
Proof.
  intros Htop Hmsg Hb64.
  pose proof (handle_log_undecodable _ _ Htop Hmsg Hb64) as H.
  assert (Hstep : step execution log
                  = ([B64decode (Str.slice_from LOG_START_INDEX log)],
                     Ok execution)).
  { rewrite (step_of_handle_log _ _ _ _ H); reflexivity. }
  assert (Hscan : scan execution (log :: rest)
                  = prefixed [ToNext (Some log);
                              B64decode (Str.slice_from LOG_START_INDEX log)]
                      (scan execution rest)).
  { rewrite scan_cons, Hstep, bind_ok, prefixed_app; reflexivity. }
  repeat split; [exact Hstep|exact Hscan|].
  rewrite Hscan; reflexivity.
Qed.

(** Any other exception of [b64decode] is not caught. *)
Lemma handle_log_b64decode_raises (execution : ExecutionContext)
  (log : string) (e : exn) :
  target_on_top execution = true ->
  Str.startswith log "Program log:" = true ->
  b64decode (Str.slice_from LOG_START_INDEX log) = Raise e ->
  e <> BinasciiError ->
  handle_log execution log
  = ([B64decode (Str.slice_from LOG_START_INDEX log)], Raise e).
Proof.
  intros Htop Hmsg Hb64 He.
  rewrite handle_log_top, Htop; unfold handle_program_log.
  rewrite Hmsg; cbv zeta; rewrite Hb64, bind_tell.
  destruct e; try reflexivity; congruence.
Qed.

(** C5: the tolerance covers [binascii.Error] only.  A [msg!] line of
    the target whose payload makes [b64decode] raise another exception,
    as [base64.b64decode] does with a [ValueError] for a [str] that is
    not ASCII, ends [parse_logs]: the exception leaves it at that line,
    after the one call to [b64decode]; the lines that follow are not
    read, and their events are not delivered. *)
Theorem undecodable_payload_not_tolerated (first : string) (pre : list string)
  (log : string) (post : list string) (execution0 execution : ExecutionContext)
  (t : list (obs Event)) (e : exn) :
  ExecutionContext_init (Some first) = Ok execution0 ->
  rounds execution0 pre = (t, Ok execution) ->
  target_on_top execution = true ->
  Str.startswith log "Program log:" = true ->
  b64decode (Str.slice_from LOG_START_INDEX log) = Raise e ->
  e <> BinasciiError ->
  parse_logs (first :: pre ++ log :: post)
  = (ToNext (Some first)
       :: t ++ [ToNext (Some log);
                B64decode (Str.slice_from LOG_START_INDEX log)],
     Raise e)
  /\ callbacks (fst (parse_logs (first :: pre ++ log :: post))) = callbacks t.
Proof.
  intros Hinit Hpre Htop Hmsg Hb64 He.
  pose proof (handle_log_b64decode_raises _ _ _ Htop Hmsg Hb64 He) as Hlog.
  assert (Hparse : parse_logs (first :: pre ++ log :: post)
                   = (ToNext (Some first)
                        :: t ++ [ToNext (Some log);
                                 B64decode (Str.slice_from LOG_START_INDEX log)],
                      Raise e)).
  { unfold parse_logs.
    rewrite (parse_logs_execution_app _ _ _ _ Hinit), Hpre, bind_ok.
    rewrite scan_cons, (step_of_handle_log _ _ _ _ Hlog).
    reflexivity. }
  split; [exact Hparse|].
  rewrite Hparse; simpl.
  rewrite callbacks_app; simpl; apply app_nil_r.
Qed.

(** ** Classification by [handle_system_log] *)

(** The four answers of [handle_system_log]. *)
Lemma handle_system_log_answers (log : string) (new_program : option string)
  (did_pop : bool) :
  handle_system_log log = Ok (new_program, did_pop) ->
  (new_program = None /\ did_pop = true)
  \/ (new_program = Some program_id /\ did_pop = false)
  \/ (new_program = Some "cpi" /\ did_pop = false)
  \/ (new_program = None /\ did_pop = false).
Proof.
  unfold handle_system_log, rbind.
  destruct (getitem (Str.split log ":") 0) as [log_start|]; [|discriminate].
  destruct (getitem (Str.split log_start "Program ") 1) as [after|];
    [|discriminate].
  destruct (getitem (Str.split after " ") 1) as [token|]; [|discriminate].
  destruct (token =? "success").
  { intros H; injection H as <- <-; auto. }
  destruct (Str.startswith log_start ("Program " ++ program_id ++ " invoke")).
  { intros H; injection H as <- <-; auto. }
  destruct (Str.contains "invoke" log_start);
    intros H; injection H as <- <-; auto.
Qed.

(** A line that ends an invocation is not a [msg!] line. *)
Lemma invocation_end_not_msg (log : string) (r : option string * bool) :
  handle_system_log log = Ok r ->
  Str.startswith log "Program log:" = false.
Proof.
  intros H. destruct (Str.startswith log "Program log:") eqn:E; [|reflexivity].
  rewrite (handle_system_log_msg _ E) in H; discriminate.
Qed.

Lemma step_invocation_end (execution : ExecutionContext) (log : string) :
  handle_system_log log = Ok (None, true) ->
  handle_log execution log = ([], Ok (None, None, true))
  /\ step execution log = pop execution.
Proof.
  intros H.
  assert (Hlog : handle_log execution log = ([], Ok (None, None, true))).
  { rewrite handle_log_system, system_log_eq, H; [reflexivity|].
    unfold authored; rewrite (invocation_end_not_msg _ _ H).
    apply andb_false_r. }
  split; [exact Hlog|].
  rewrite (step_of_handle_log _ _ _ _ Hlog).
  rewrite !prefixed_nil, bind_ret; reflexivity.
Qed.

(** C6: a line left to [handle_system_log] in which the text before the
    first colon, cut at [Program ], has [success] as the second
    space-separated token of its second piece, is answered
    [(None, None, True)]: the round is exactly [execution.pop()], nothing
    is pushed, and a stack [st ++ [top]] becomes [st]. *)
Theorem success_token_pops (execution : ExecutionContext)
  (log log_start after : string) :
  authored execution log = false ->
  getitem (Str.split log ":") 0 = Ok log_start ->
  getitem (Str.split log_start "Program ") 1 = Ok after ->
  getitem (Str.split after " ") 1 = Ok "success" ->
  handle_log execution log = ([], Ok (None, None, true))
  /\ step execution log = pop execution
  /\ pushes (fst (step execution log)) = 0
  /\ forall (st : list string) (top : string),
       stack execution = st ++ [top] ->
       step execution log = ([Pop], Ok {| stack := st |}).
Proof.
  intros _ Hstart Hafter Htoken.
  assert (Hsys : handle_system_log log = Ok (None, true)).
  { unfold handle_system_log; rewrite Hstart; simpl.
    rewrite Hafter; simpl. rewrite Htoken; reflexivity. }
  destruct (step_invocation_end execution log Hsys) as [Hlog Hstep].
  repeat split; [exact Hlog|exact Hstep| |].
  - rewrite Hstep; unfold pop.
    destruct (stack execution); reflexivity.
  - intros st top Hst. rewrite Hstep.
    destruct execution as [s]; simpl in Hst; subst s.
    apply pop_snoc.
Qed.

(** ** Lines that do not have the expected shape *)

Lemma handle_system_log_malformed (log log_start : string) :
  getitem (Str.split log ":") 0 = Ok log_start ->
  Str.contains "Program " log_start = false
  \/ (exists after,
        getitem (Str.split log_start "Program ") 1 = Ok after
        /\ nth_error (Str.split after " ") 1 = None) ->
  handle_system_log log = Raise IndexError.
Proof.
  intros Hstart Hshape; unfold handle_system_log; rewrite Hstart; simpl.
  destruct Hshape as [Habsent|(after & Hafter & Htoken)].
  - rewrite (getitem_1_absent _ _ Habsent); reflexivity.
  - rewrite Hafter; simpl. unfold getitem; rewrite Htoken; reflexivity.
Qed.

(** C7: a line after the first, left to [handle_system_log], whose text
    before the first colon has no [Program ] marker, or has it with no
    second space-separated token in the piece after it, makes
    [parse_logs] raise [IndexError]; the lines that follow are not read,
    and the trace up to that line, with the callbacks made for the lines
    before it, is the trace of the rounds over those lines. *)
Theorem malformed_line_fatal (first : string) (pre : list string)
  (log : string) (post : list string) (execution0 execution : ExecutionContext)
  (t : list (obs Event)) (log_start : string) :
  ExecutionContext_init (Some first) = Ok execution0 ->
  rounds execution0 pre = (t, Ok execution) ->
  authored execution log = false ->
  getitem (Str.split log ":") 0 = Ok log_start ->
  Str.contains "Program " log_start = false
  \/ (exists after,
        getitem (Str.split log_start "Program ") 1 = Ok after
        /\ nth_error (Str.split after " ") 1 = None) ->
  parse_logs (first :: pre ++ log :: post)
  = (ToNext (Some first) :: t ++ [ToNext (Some log)], Raise IndexError)
  /\ callbacks (fst (parse_logs (first :: pre ++ log :: post))) = callbacks t.
Proof.
  intros Hinit Hpre Hsys Hstart Hshape.
  assert (Hlog : handle_log execution log = ([], Raise IndexError)).
  { rewrite (handle_log_system _ _ Hsys), system_log_eq.
    rewrite (handle_system_log_malformed _ _ Hstart Hshape); reflexivity. }
  assert (Hparse : parse_logs (first :: pre ++ log :: post)
                   = (ToNext (Some first) :: t ++ [ToNext (Some log)],
                      Raise IndexError)).
  { unfold parse_logs.
    rewrite (parse_logs_execution_app _ _ _ _ Hinit), Hpre, bind_ok.
    rewrite scan_cons, (step_of_handle_log _ _ _ _ Hlog).
    reflexivity. }
  split; [exact Hparse|].
  rewrite Hparse; simpl.
  rewrite callbacks_app; simpl; apply app_nil_r.
Qed.

(** ** The shape of the trace *)

Lemma step_system_round_obs (execution : ExecutionContext) (log : string) :
  handle_log execution log = system_log log ->
  round_obs log (fst (step execution log)).
Proof.
  intros H; rewrite system_log_eq in H.
  rewrite (step_of_handle_log _ _ _ _ H), prefixed_nil.
  destruct (handle_system_log log) as [[np dp]|e] eqn:E; [|constructor].
  rewrite prefixed_nil.
  destruct (handle_system_log_answers _ _ _ E)
    as [[-> ->]|[[-> ->]|[[-> ->]|[-> ->]]]].
  - rewrite bind_ret; unfold pop.
    destruct (stack execution); constructor.
  - unfold push; rewrite bind_assoc, bind_tell, !bind_ret; constructor.
  - unfold push; rewrite bind_assoc, bind_tell, !bind_ret; constructor.
  - rewrite bind_ret; constructor.
Qed.

Lemma step_round_obs (execution : ExecutionContext) (log : string) :
  round_obs log (fst (step execution log)).
Proof.
  destruct (authored execution log) eqn:A.
  2:{ apply step_system_round_obs, handle_log_system, A. }
  apply andb_true_iff in A as [Htop Hmsg].
  assert (H : handle_log execution log = handle_program_log log)
    by (rewrite handle_log_top, Htop; reflexivity).
  unfold handle_program_log in H; rewrite Hmsg in H; cbv zeta in H.
  rewrite bind_tell in H.
  destruct (b64decode (Str.slice_from LOG_START_INDEX log)) as [decoded|e] eqn:B.
  - rewrite bind_tell, prefixed_app in H.
    rewrite (step_of_handle_log _ _ _ _ H).
    destruct (events_parse decoded) as [ev|] eqn:P; simpl.
    + eapply round_event; eassumption.
    + eapply round_no_event; eassumption.
  - assert (H' : exists r, handle_log execution log
                 = ([B64decode (Str.slice_from LOG_START_INDEX log)], r)
                 /\ (r = Raise e \/ r = Ok (None, None, false))).
    { destruct e; eexists; (split; [exact H|]); auto. }
    destruct H' as (r & H' & [->| ->]);
      rewrite (step_of_handle_log _ _ _ _ H'); simpl; constructor.
Qed.

Lemma scan_scan_trace (execution : ExecutionContext) (lines : list string) :
  scan_trace lines (fst (scan execution lines)).
Proof.
  revert execution; induction lines as [|log rest IH]; intros execution.
  - constructor.
  - rewrite scan_cons.
    pose proof (step_round_obs execution log) as Hobs.
    destruct (step execution log) as [os [execution'|e]]; simpl in Hobs.
    + rewrite bind_ok, prefixed_app; simpl.
      apply trace_round; [exact Hobs|apply IH].
    + simpl. rewrite <- (app_nil_r os).
      apply trace_round; [exact Hobs|constructor].
Qed.


Lemma parse_logs_scan_trace (lines : list string) :
  scan_trace lines (fst (parse_logs lines)).
Proof.
  rewrite fst_parse_logs.
  destruct lines as [|first rest]; [constructor|].
  rewrite parse_logs_execution_cons.
  destruct (ExecutionContext_init (Some first)) as [execution|e].
  - unfold lift; rewrite bind_ok, prefixed_nil; simpl.
    apply (trace_round first rest []); [constructor|apply scan_scan_trace].
  - simpl. apply (trace_round first rest [] []); constructor.
Qed.

Lemma parse_calls_app (t t' : list (obs Event)) :
  parse_calls (t ++ t') = parse_calls t ++ parse_calls t'.
Proof.
  induction t as [|o t IH]; [reflexivity|].
  destruct o; simpl; rewrite IH; reflexivity.
Qed.

Lemma decoded_events_app (t t' : list (obs Event)) :
  decoded_events (t ++ t') = decoded_events t ++ decoded_events t'.
Proof. unfold decoded_events; rewrite parse_calls_app; apply flat_map_app. Qed.

Lemma reads_app (t t' : list (obs Event)) :
  reads (t ++ t') = reads t ++ reads t'.
Proof.
  induction t as [|o t IH]; [reflexivity|].
  destruct o; simpl; rewrite IH; reflexivity.
Qed.

(** In a round, the callback is called with what the coder returned. *)
Lemma round_obs_callbacks (log : string) (os : list (obs Event)) :
  round_obs log os -> callbacks os = decoded_events os /\ reads os = [].
Proof.
  unfold decoded_events.
  intros H; destruct H as [| | | |decoded _ P|decoded e _ P]; simpl;
    try rewrite P; auto.
Qed.

Lemma scan_trace_callbacks (lines : list string) (t : list (obs Event)) :
  scan_trace lines t -> callbacks t = decoded_events t.
Proof.
  induction 1 as [| |log rest os t Hos _ IH]; try reflexivity.
  change (ToNext (Some log) :: os ++ t) with ([ToNext (Some log)] ++ os ++ t).
  rewrite !callbacks_app, !decoded_events_app, IH.
  destruct (round_obs_callbacks _ _ Hos) as [-> _]; reflexivity.
Qed.

Lemma scan_reads (lines : list string) (execution execution' : ExecutionContext)
  (t : list (obs Event)) :
  scan execution lines = (t, Ok execution') ->
  reads t = map Some lines ++ [None].
Proof.
  revert execution t; induction lines as [|log rest IH]; intros execution t H.
  - injection H as <- _; reflexivity.
  - rewrite scan_cons in H.
    pose proof (step_round_obs execution log) as Hobs.
    destruct (step execution log) as [os [ex1|e]]; [|discriminate].
    simpl in Hobs; rewrite bind_ok, prefixed_app in H.
    destruct (scan ex1 rest) as [t1 r1] eqn:S.
    unfold prefixed in H; simpl in H.
    injection H as <- ->.
    simpl; rewrite reads_app.
    destruct (round_obs_callbacks _ _ Hobs) as [_ ->].
    rewrite (IH _ _ S); reflexivity.
Qed.

(** ** Depth of the stack *)

Lemma pushes_app (t t' : list (obs Event)) :
  pushes (t ++ t') = pushes t + pushes t'.
Proof.
  induction t as [|o t IH]; [reflexivity|].
  destruct o; simpl; rewrite IH; reflexivity.
Qed.

Lemma pops_app (t t' : list (obs Event)) :
  pops (t ++ t') = pops t + pops t'.
Proof.
  induction t as [|o t IH]; [reflexivity|].
  destruct o; simpl; rewrite IH; reflexivity.
Qed.

(** [handle_log] does not touch the stack. *)
Lemma handle_log_no_stack_ops (execution : ExecutionContext) (log : string)
  (t : list (obs Event)) (r : result (option Event * option string * bool)) :
  handle_log execution log = (t, r) -> pushes t = 0 /\ pops t = 0.
Proof.
  rewrite handle_log_top.
  assert (Hs : system_log log = (t, r) -> pushes t = 0 /\ pops t = 0).
  { rewrite system_log_eq; intros H; injection H as <- _; auto. }
  destruct (target_on_top execution); [|exact Hs].
  unfold handle_program_log.
  destruct (Str.startswith log "Program log:"); [|exact Hs].
  cbv zeta; rewrite bind_tell.
  destruct (b64decode (Str.slice_from LOG_START_INDEX log)) as [decoded|e].
  - rewrite bind_tell; intros H; injection H as <- _; auto.
  - destruct e; intros H; injection H as <- _; auto.
Qed.

Lemma step_quiet (execution : ExecutionContext) (log : string)
  (t : list (obs Event)) (event : option Event) :
  handle_log execution log = (t, Ok (event, None, false)) ->
  exists t', step execution log = (t', Ok execution)
             /\ pushes t' = 0 /\ pops t' = 0.
Proof.
  intros H. destruct (handle_log_no_stack_ops _ _ _ _ H) as [Hpu Hpo].
  rewrite (step_of_handle_log _ _ _ _ H), bind_ret, prefixed_app.
  eexists; split; [reflexivity|].
  rewrite app_nil_r, pushes_app, pops_app, Hpu, Hpo.
  destruct event; auto.
Qed.

Lemma step_call (execution : ExecutionContext) (log : string)
  (t : list (obs Event)) (event : option Event) (p : string) :
  handle_log execution log = (t, Ok (event, Some p, false)) ->
  exists t', step execution log
             = (t', Ok {| stack := stack execution ++ [p] |})
             /\ pushes t' = 1 /\ pops t' = 0.
Proof.
  intros H. destruct (handle_log_no_stack_ops _ _ _ _ H) as [Hpu Hpo].
  rewrite (step_of_handle_log _ _ _ _ H).
  unfold push; rewrite bind_assoc, bind_tell, !bind_ret, !prefixed_app.
  eexists; split; [reflexivity|].
  rewrite app_nil_r, !pushes_app, !pops_app, Hpu, Hpo.
  destruct event; auto.
Qed.

Lemma step_close (st : list string) (p : string) (log : string)
  (t : list (obs Event)) (event : option Event) :
  handle_log {| stack := st ++ [p] |} log = (t, Ok (event, None, true)) ->
  exists t', step {| stack := st ++ [p] |} log = (t', Ok {| stack := st |})
             /\ pushes t' = 0 /\ pops t' = 1.
Proof.
  intros H. destruct (handle_log_no_stack_ops _ _ _ _ H) as [Hpu Hpo].
  rewrite (step_of_handle_log _ _ _ _ H), bind_ret, pop_snoc, !prefixed_app.
  eexists; split; [reflexivity|].
  rewrite !pushes_app, !pops_app, Hpu, Hpo.
  destruct event; auto.
Qed.

Lemma rounds_app (execution : ExecutionContext) (pre rest : list string) :
  rounds execution (pre ++ rest) =
  (execution' <- rounds execution pre ;; rounds execution' rest).
Proof.
  revert execution; induction pre as [|log pre IH]; intros execution.
  - cbn [app rounds]. rewrite bind_ret; reflexivity.
  - cbn [app]. rewrite !rounds_cons, bind_prefixed, bind_assoc.
    f_equal.
    destruct (step execution log) as [t [ex|e]]; [|reflexivity].
    rewrite !bind_ok, IH; reflexivity.
Qed.

Lemma rounds_step (execution execution' : ExecutionContext) (log : string)
  (t : list (obs Event)) (rest : list string) :
  step execution log = (t, Ok execution') ->
  rounds execution (log :: rest)
  = prefixed (ToNext (Some log) :: t) (rounds execution' rest).
Proof. intros H; rewrite rounds_cons, H, bind_ok, prefixed_app; reflexivity. Qed.

Lemma states_app (execution execution' : ExecutionContext)
  (pre rest : list string) (t : list (obs Event)) :
  rounds execution pre = (t, Ok execution') ->
  states execution (pre ++ rest) = states execution pre ++ states execution' rest.
Proof.
  revert execution t; induction pre as [|log pre IH]; intros execution t H.
  - injection H as _ ->; reflexivity.
  - rewrite rounds_cons in H. cbn [app states].
    destruct (step execution log) as [os [ex1|e]]; [|discriminate].
    rewrite bind_ok in H.
    destruct (rounds ex1 pre) as [t1 [ex2|e]] eqn:R; [|discriminate].
    unfold prefixed in H; simpl in H; injection H as _ ->.
    rewrite (IH _ _ R); reflexivity.
Qed.

Lemma init_stack (log : string) (execution : ExecutionContext) :
  ExecutionContext_init (Some log) = Ok execution ->
  exists p, execution = {| stack := [p] |}.
Proof.
  unfold ExecutionContext_init.
  destruct (rbind _ _) as [p|e]; [|destruct e; discriminate].
  intros H; injection H as <-; eauto.
Qed.

(** ** Events of the target *)

Lemma step_event (execution : ExecutionContext) (log : string)
  (decoded : bytes) (e : Event) :
  target_on_top execution = true ->
  Str.startswith log "Program log:" = true ->
  b64decode (Str.slice_from LOG_START_INDEX log) = Ok decoded ->
  events_parse decoded = Some e ->
  step execution log
  = ([B64decode (Str.slice_from LOG_START_INDEX log);
      EventsParse decoded; Callback e], Ok execution).
Proof.
  intros Htop Hmsg Hb64 Hparse.
  assert (H : handle_log execution log
              = ([B64decode (Str.slice_from LOG_START_INDEX log);
                  EventsParse decoded], Ok (Some e, None, false))).
  { rewrite handle_log_top, Htop; unfold handle_program_log.
    rewrite Hmsg; cbv zeta.
    rewrite Hb64, !bind_tell, prefixed_app, Hparse; reflexivity. }
  rewrite (step_of_handle_log _ _ _ _ H); reflexivity.
Qed.

Lemma scan_step (execution execution' : ExecutionContext) (log : string)
  (t : list (obs Event)) (rest : list string) :
  step execution log = (t, Ok execution') ->
  scan execution (log :: rest)
  = prefixed (ToNext (Some log) :: t) (scan execution' rest).
Proof. intros H; rewrite scan_cons, H, bind_ok, prefixed_app; reflexivity. Qed.

(** * Further properties of the code *)

(** ** The scanner *)

(** X1: successive calls of [to_next] hand out the lines in the order of
    the input, one per call and none twice: the call after [k] others
    returns line [k], or [None] once the lines are used up, and leaves
    the lines after it; an exhausted scanner stays exhausted. *)
Theorem to_next_in_order (lines : list string) (k : nat) :
  fst (nth_to_next k {| logs := lines |}) = nth_error lines k
  /\ logs (snd (nth_to_next k {| logs := lines |})) = skipn (S k) lines.
Proof.
  revert lines; induction k as [|k IH]; intros lines.
  - destruct lines; split; reflexivity.
  - destruct lines as [|log rest].
    + cbn [nth_to_next to_next logs snd].
      destruct (IH []) as [H1 H2]; rewrite H1, H2.
      destruct k; split; reflexivity.
    + cbn [nth_to_next to_next logs snd].
      destruct (IH rest) as [H1 H2]; rewrite H1, H2; split; reflexivity.
Qed.

(** ** More on strings *)

Lemma append_empty_r (s : string) : (s ++ "")%string = s.
Proof. induction s as [|c s IH]; simpl; [|rewrite IH]; reflexivity. Qed.

Lemma append_assoc (a b c : string) :
  ((a ++ b) ++ c)%string = (a ++ (b ++ c))%string.
Proof. induction a as [|x a IH]; simpl; [|rewrite IH]; reflexivity. Qed.

Lemma contains_startswith (sub s : string) :
  Str.startswith s sub = true -> Str.contains sub s = true.
Proof. intros H; destruct s; simpl; rewrite H; reflexivity. Qed.

Lemma contains_app_r (sub a s : string) :
  Str.contains sub s = true -> Str.contains sub (a ++ s) = true.
Proof.
  intros H; induction a as [|x a IH]; [exact H|].
  simpl; rewrite IH; apply orb_true_r.
Qed.

Lemma contains_app_l (sub a s : string) :
  Str.contains sub (a ++ s) = false -> Str.contains sub s = false.
Proof.
  intros H; destruct (Str.contains sub s) eqn:E; [|reflexivity].
  rewrite (contains_app_r _ a _ E) in H; discriminate.
Qed.

Lemma contains_middle (sub a b : string) :
  Str.contains sub (a ++ sub ++ b) = true.
Proof. apply contains_app_r, contains_startswith, startswith_prefix. Qed.

(** A text without the character [c]. *)
Lemma no_char_cons (c x : ascii) (s : string) :
  Str.contains (String c "") (String x s) = false ->
  Ascii.eqb c x = false /\ Str.contains (String c "") s = false.
Proof.
  simpl; intros H; apply orb_false_iff in H as [H1 H2].
  rewrite andb_true_r in H1; auto.
Qed.

(** A separator that starts with [c] is not found inside a text without
    [c]: the text goes to the head of the first piece. *)
Lemma split_go_skip_text (c : ascii) (sep' a s piece : string)
  (pieces : list string) :
  Str.contains (String c "") a = false ->
  Str.split_go (String c sep') 0 s = piece :: pieces ->
  Str.split_go (String c sep') 0 (a ++ s) = (a ++ piece)%string :: pieces.
Proof.
  intros Ha Hs; induction a as [|x a IH]; [exact Hs|].
  apply no_char_cons in Ha as [Hx Ha].
  cbn [append Str.split_go Str.startswith].
  rewrite Hx, (IH Ha); reflexivity.
Qed.

Lemma split_go_skipped (sep : string) (a s : string) :
  Str.split_go sep (String.length a) (a ++ s) = Str.split_go sep 0 s.
Proof. induction a as [|x a IH]; [destruct s; reflexivity|exact IH]. Qed.

(** A text that starts with the separator: an empty piece, then the
    pieces of the rest. *)
Lemma split_go_at_sep (c : ascii) (sep' s : string) :
  Str.split_go (String c sep') 0 (String c sep' ++ s)
  = EmptyString :: Str.split_go (String c sep') 0 s.
Proof.
  pose proof (startswith_prefix (String c sep') s) as H.
  cbn [append] in *. cbn [Str.split_go]. rewrite H.
  replace (String.length (String c sep') - 1) with (String.length sep')
    by (cbn [String.length]; lia).
  rewrite split_go_skipped; reflexivity.
Qed.

(** The first piece of [a ++ sep ++ s] is [a], when the first character
    of [sep] does not occur in [a]. *)
Lemma split_text_then_sep (c : ascii) (sep' a s : string) :
  Str.contains (String c "") a = false ->
  Str.split (a ++ String c sep' ++ s) (String c sep')
  = a :: Str.split s (String c sep').
Proof.
  intros Ha; unfold Str.split.
  rewrite (split_go_skip_text c sep' a _ _ _ Ha (split_go_at_sep c sep' s)).
  rewrite append_empty_r; reflexivity.
Qed.

Lemma no_char_app (c : ascii) (a b : string) :
  Str.contains (String c "") a = false ->
  Str.contains (String c "") b = false ->
  Str.contains (String c "") (a ++ b) = false.
Proof.
  intros Ha Hb; induction a as [|x a IH]; [exact Hb|].
  apply no_char_cons in Ha as [Hx Ha].
  cbn [append Str.contains Str.startswith].
  rewrite Hx, (IH Ha); reflexivity.
Qed.

(** The pieces around the one marker of [Program x]. *)
Lemma marker_split (x : string) :
  Str.contains "Program " x = false ->
  Str.split ("Program " ++ x) "Program " = [EmptyString; x].
Proof.
  intros H; unfold Str.split.
  rewrite (split_go_at_sep "P" "rogram " x).
  fold (Str.split x "Program "); rewrite (split_absent _ _ H); reflexivity.
Qed.

(** The second space-separated token of [id rest] is the first of [rest]. *)
Lemma second_token (id rest : string) :
  Str.contains " " id = false ->
  getitem (Str.split (id ++ " " ++ rest) " ") 1
  = getitem (Str.split rest " ") 0.
Proof.
  intros H. rewrite (split_text_then_sep " " "" id rest H); reflexivity.
Qed.

Lemma first_token_spaced (word rest : string) :
  Str.contains " " word = false ->
  getitem (Str.split (word ++ " " ++ rest) " ") 0 = Ok word.
Proof.
  intros H. rewrite (split_text_then_sep " " "" word rest H); reflexivity.
Qed.

Lemma log_start_no_colon (log : string) :
  Str.contains ":" log = false ->
  getitem (Str.split log ":") 0 = Ok log.
Proof. intros H; rewrite (split_absent _ _ H); reflexivity. Qed.

Lemma log_start_colon (log_start rest : string) :
  Str.contains ":" log_start = false ->
  getitem (Str.split (log_start ++ ":" ++ rest) ":") 0 = Ok log_start.
Proof.
  intros H. rewrite (split_text_then_sep ":" "" log_start rest H); reflexivity.
Qed.

Lemma no_colon_not_msg (log : string) :
  Str.contains ":" log = false ->
  Str.startswith log "Program log:" = false.
Proof.
  intros H. destruct (Str.startswith log "Program log:") eqn:E; [|reflexivity].
  apply startswith_app in E as [rest ->].
  assert (C : Str.contains ":" ("Program log:" ++ rest) = true)
    by exact (contains_middle ":" "Program log" rest).
  rewrite C in H; discriminate.
Qed.

(** Two identifiers without a space, each followed by a space: one text
    starts with the other only if the identifiers are the same. *)
Lemma same_identifier (pid id x y : string) :
  Str.contains " " id = false ->
  Str.contains " " pid = false ->
  Str.startswith (id ++ " " ++ x) (pid ++ " " ++ y) = true ->
  id = pid.
Proof.
  revert id; induction pid as [|b pid IH]; intros id Hid Hpid H.
  - destruct id as [|a id]; [reflexivity|].
    apply no_char_cons in Hid as [Ha _].
    cbn [append Str.startswith] in H; rewrite Ha in H; discriminate.
  - apply no_char_cons in Hpid as [Hb Hpid].
    destruct id as [|a id].
    + cbn [append Str.startswith] in H.
      rewrite Ascii.eqb_sym, Hb in H; discriminate.
    + apply no_char_cons in Hid as [_ Hid].
      cbn [append Str.startswith] in H.
      apply andb_true_iff in H as [Hab H].
      apply Ascii.eqb_eq in Hab; subst b.
      f_equal; apply (IH id Hid Hpid H).
Qed.

(** A line of the shape [Program <id> <rest>] does not open with
    [Program log:] when [id] has no colon. *)
Lemma identifier_line_not_msg (id rest : string) :
  Str.contains ":" id = false ->
  Str.startswith ("Program " ++ id ++ " " ++ rest) "Program log:" = false.
Proof.
  intros H.
  destruct (Str.startswith ("Program " ++ id ++ " " ++ rest) "Program log:")
    eqn:E; [|reflexivity].
  exfalso.
  change (Str.startswith (id ++ " " ++ rest) "log:" = true) in E.
  destruct id as [|a [|b [|c [|d id]]]]; cbn in E; try discriminate.
  - apply andb_true_iff in E as [_ E]; discriminate.
  - apply andb_true_iff in E as [_ E].
    apply andb_true_iff in E as [_ E]; discriminate.
  - apply andb_true_iff in E as [_ E].
    apply andb_true_iff in E as [_ E].
    apply andb_true_iff in E as [_ E]; discriminate.
  - apply andb_true_iff in E as [_ E].
    apply andb_true_iff in E as [_ E].
    apply andb_true_iff in E as [_ E].
    apply no_char_cons in H as [_ H].
    apply no_char_cons in H as [_ H].
    apply no_char_cons in H as [_ H].
    apply no_char_cons in H as [H _].
    destruct d as [[] [] [] [] [] [] [] []]; cbn in E, H; discriminate.
Qed.

Lemma startswith_contains (a b s : string) :
  Str.startswith s (a ++ b) = true -> Str.contains b s = true.
Proof.
  intros H; apply startswith_app in H as [rest ->].
  rewrite append_assoc; apply contains_middle.
Qed.

(** ** The lines the runtime writes *)

(** X2: from a first line [Program <id> invoke [<depth>], where [id] has
    no space and the text after the marker holds no second marker,
    [__init__] makes the one-entry stack [[id]]. *)
Theorem init_seeds_identifier (id depth : string) :
  Str.contains " " id = false ->
  Str.contains "Program " (id ++ " invoke [" ++ depth) = false ->
  ExecutionContext_init (Some ("Program " ++ id ++ " invoke [" ++ depth)%string)
  = Ok {| stack := [id] |}.
Proof.
  intros Hid Hmarker; unfold ExecutionContext_init.
  rewrite (marker_split _ Hmarker); cbn [getitem nth_error rbind].
  rewrite (split_text_then_sep " " "invoke [" id depth Hid); reflexivity.
Qed.

Lemma startswith_marker (x y : string) :
  Str.startswith ("Program " ++ x) ("Program " ++ y) = Str.startswith x y.
Proof. reflexivity. Qed.

(** How [handle_system_log] answers a line whose text before the first
    colon is [Program <id> <word>...]: the second token is [word]. *)
Lemma handle_system_log_tokens (log id word rest : string) :
  getitem (Str.split log ":") 0 = Ok ("Program " ++ id ++ " " ++ rest)%string ->
  Str.contains " " id = false ->
  Str.contains "Program " (id ++ " " ++ rest) = false ->
  getitem (Str.split rest " ") 0 = Ok word ->
  handle_system_log log
  = if word =? "success" then Ok (None, true)
    else if Str.startswith (id ++ " " ++ rest) (program_id ++ " invoke")
    then Ok (Some program_id, false)
    else if Str.contains "invoke" ("Program " ++ id ++ " " ++ rest)
    then Ok (Some "cpi", false)
    else Ok (None, false).
Proof.
  intros Hstart Hid Hmarker Hword; unfold handle_system_log.
  rewrite Hstart; cbn [rbind].
  rewrite (marker_split _ Hmarker); cbn [getitem nth_error rbind].
  fold (getitem (Str.split (id ++ " " ++ rest) " ") 1).
  rewrite (second_token _ _ Hid), Hword; cbn [rbind].
  rewrite startswith_marker; reflexivity.
Qed.

Lemma handle_system_log_invoke (id depth : string) :
  Str.contains " " id = false ->
  Str.contains " " program_id = false ->
  Str.contains ":" (id ++ " invoke [" ++ depth) = false ->
  Str.contains "Program " (id ++ " invoke [" ++ depth) = false ->
  handle_system_log ("Program " ++ id ++ " invoke [" ++ depth)
  = Ok (Some (if id =? program_id then program_id else "cpi"), false).
Proof.
  intros Hid Hpid Hcolon Hmarker.
  change ("Program " ++ id ++ " invoke [" ++ depth)%string
    with ("Program " ++ id ++ " " ++ ("invoke" ++ " " ++ ("[" ++ depth)))%string.
  rewrite (handle_system_log_tokens _ id "invoke"
             ("invoke" ++ " " ++ ("[" ++ depth)));
    [|apply log_start_no_colon, (no_char_app ":" "Program ");
        [reflexivity|exact Hcolon]
     |exact Hid
     |exact Hmarker
     |apply first_token_spaced; reflexivity].
  change ("invoke" =? "success") with false; cbv iota.
  destruct (id =? program_id) eqn:E.
  - apply String.eqb_eq in E; subst id.
    assert (H : Str.startswith
                  (program_id ++ " " ++ ("invoke" ++ " " ++ ("[" ++ depth)))
                  (program_id ++ " invoke") = true).
    { change (program_id ++ " " ++ ("invoke" ++ " " ++ ("[" ++ depth)))%string
        with (program_id ++ " invoke" ++ (" [" ++ depth))%string.
      rewrite <- append_assoc; apply startswith_prefix. }
    rewrite H; reflexivity.
  - destruct (Str.startswith _ _) eqn:S.
    + change (program_id ++ " invoke")%string
        with (program_id ++ " " ++ "invoke")%string in S.
      apply same_identifier in S; [|assumption..].
      apply String.eqb_neq in E; contradiction.
    + assert (C : Str.contains "invoke"
                    ("Program " ++ id ++ " "
                       ++ ("invoke" ++ " " ++ ("[" ++ depth))) = true).
      { apply (contains_app_r "invoke" "Program ").
        apply (contains_app_r "invoke" id).
        apply (contains_app_r "invoke" " ").
        apply contains_startswith; reflexivity. }
      rewrite C; reflexivity.
Qed.

Lemma handle_log_invoke_line (execution : ExecutionContext) (id depth : string) :
  Str.contains " " id = false ->
  Str.contains " " program_id = false ->
  Str.contains ":" (id ++ " invoke [" ++ depth) = false ->
  Str.contains "Program " (id ++ " invoke [" ++ depth) = false ->
  handle_log execution ("Program " ++ id ++ " invoke [" ++ depth)
  = ([], Ok (None, Some (if id =? program_id then program_id else "cpi"),
             false)).
Proof.
  intros Hid Hpid Hcolon Hmarker.
  rewrite handle_log_system, system_log_eq.
  - rewrite (handle_system_log_invoke _ _ Hid Hpid Hcolon Hmarker).
    reflexivity.
  - unfold authored; rewrite no_colon_not_msg; [apply andb_false_r|].
    apply (no_char_app ":" "Program "); [reflexivity|exact Hcolon].
Qed.

(** X8: a line [Program <id> invoke [<depth>] without a colon, [id] and
    the target without a space, pushes an entry whatever the stack is:
    the target when [id] is the target, [cpi] for every other [id]. *)
Theorem invoke_line_pushes (execution : ExecutionContext) (id depth : string) :
  Str.contains " " id = false ->
  Str.contains " " program_id = false ->
  Str.contains ":" (id ++ " invoke [" ++ depth) = false ->
  Str.contains "Program " (id ++ " invoke [" ++ depth) = false ->
  step execution ("Program " ++ id ++ " invoke [" ++ depth)
  = ([Push (if id =? program_id then program_id else "cpi")],
     Ok {| stack := stack execution
                    ++ [if id =? program_id then program_id else "cpi"] |}).
Proof.
  intros Hid Hpid Hcolon Hmarker.
  pose proof (handle_log_invoke_line execution _ _ Hid Hpid Hcolon Hmarker)
    as Hlog.
  rewrite (step_of_handle_log _ _ _ _ Hlog), !prefixed_nil.
  unfold push; rewrite bind_assoc, bind_tell, !bind_ret; reflexivity.
Qed.

Lemma handle_system_log_success_line (id : string) :
  Str.contains " " id = false ->
  Str.contains ":" id = false ->
  Str.contains "Program " (id ++ " success") = false ->
  handle_system_log ("Program " ++ id ++ " success") = Ok (None, true).
Proof.
  intros Hid Hcolon Hmarker.
  rewrite (handle_system_log_tokens _ id "success" "success");
    [reflexivity| |exact Hid|exact Hmarker|reflexivity].
  apply log_start_no_colon, (no_char_app ":" "Program "); [reflexivity|].
  apply no_char_app; [exact Hcolon|reflexivity].
Qed.

(** X9: a line [Program <id> success], [id] without space or colon, is
    the end of an invocation whatever [id] and the stack are: the round
    is [execution.pop()], also when [id] is not the entry on top. *)
Theorem success_line_pops (execution : ExecutionContext) (id : string) :
  Str.contains " " id = false ->
  Str.contains ":" id = false ->
  Str.contains "Program " (id ++ " success") = false ->
  step execution ("Program " ++ id ++ " success") = pop execution.
Proof.
  intros Hid Hcolon Hmarker.
  apply step_invocation_end, handle_system_log_success_line; assumption.
Qed.

Lemma contains_invoke_marker (s : string) :
  Str.contains "invoke" ("Program " ++ s) = Str.contains "invoke" s.
Proof. reflexivity. Qed.

(** X10: a line [Program <id> failed: <message>], where [id] has no
    space and no colon and the text [<id> failed] holds neither the
    marker [Program ] nor [invoke], is no end of an invocation: whatever
    the stack, the round leaves it as it is, with nothing popped, nothing
    pushed and no exception. *)
Theorem failed_line_leaves_stack (execution : ExecutionContext)
  (id message : string) :
  Str.contains " " id = false ->
  Str.contains ":" id = false ->
  Str.contains "Program " (id ++ " failed") = false ->
  Str.contains "invoke" (id ++ " failed") = false ->
  step execution ("Program " ++ id ++ " failed: " ++ message)
  = ([], Ok execution).
Proof.
  intros Hid Hcolon Hmarker Hinvoke.
  assert (Hsys : handle_system_log ("Program " ++ id ++ " failed: " ++ message)
                 = Ok (None, false)).
  { rewrite (handle_system_log_tokens _ id "failed" "failed");
      [|   |exact Hid|exact Hmarker|reflexivity].
    - change ("failed" =? "success") with false; cbv iota.
      destruct (Str.startswith _ _) eqn:S.
      + change (program_id ++ " invoke")%string
          with (program_id ++ " " ++ "invoke")%string in S.
        rewrite <- (append_assoc program_id " " "invoke") in S.
        apply startswith_contains in S.
        change (id ++ " " ++ "failed")%string
          with (id ++ " failed")%string in S.
        congruence.
      + rewrite contains_invoke_marker.
        change (id ++ " " ++ "failed")%string with (id ++ " failed")%string.
        rewrite Hinvoke; reflexivity.
    - replace ("Program " ++ id ++ " failed: " ++ message)%string
        with (("Program " ++ id ++ " " ++ "failed") ++ ":" ++ " " ++ message)%string.
      + apply log_start_colon, (no_char_app ":" "Program "); [reflexivity|].
        apply no_char_app; [exact Hcolon|reflexivity].
      + cbn [append]. rewrite append_assoc; reflexivity. }
  assert (Hlog : handle_log execution
                   ("Program " ++ id ++ " failed: " ++ message)
                 = ([], Ok (None, None, false))).
  { rewrite handle_log_system, system_log_eq, Hsys; [reflexivity|].
    unfold authored.
    change ("Program " ++ id ++ " failed: " ++ message)%string
      with ("Program " ++ id ++ " " ++ ("failed: " ++ message))%string.
    rewrite (identifier_line_not_msg _ _ Hcolon); apply andb_false_r. }
  rewrite (step_of_handle_log _ _ _ _ Hlog), !prefixed_nil, bind_ret.
  reflexivity.
Qed.

(** ** Invariants of the scan *)

Lemma step_depth (execution execution' : ExecutionContext) (log : string)
  (t : list (obs Event)) :
  step execution log = (t, Ok execution') ->
  List.length (stack execution') + pops t
  = List.length (stack execution) + pushes t.
Proof.
  destruct (handle_log execution log) as [t0 r] eqn:H.
  destruct (handle_log_no_stack_ops _ _ _ _ H) as [Hpu Hpo].
  rewrite (step_of_handle_log _ _ _ _ H).
  destruct r as [[[event np] dp]|e]; [|discriminate].
  rewrite prefixed_app.
  assert (Hcb : pushes (t0 ++ match event with
                              | Some e => [Callback e]
                              | None => []
                              end) = 0
                /\ pops (t0 ++ match event with
                               | Some e => [Callback e]
                               | None => []
                               end) = 0).
  { rewrite pushes_app, pops_app, Hpu, Hpo; destruct event; auto. }
  destruct Hcb as [Hpu' Hpo'].
  destruct np as [p|]; destruct dp.
  - unfold push; rewrite bind_assoc, bind_tell, !bind_ret.
    rewrite pop_snoc; unfold prefixed; simpl.
    intros E; injection E as <- <-.
    rewrite pushes_app, pops_app, Hpu', Hpo'; simpl; lia.
  - unfold push; rewrite bind_assoc, bind_tell, !bind_ret.
    unfold prefixed; simpl.
    intros E; injection E as <- <-.
    rewrite pushes_app, pops_app, Hpu', Hpo'; simpl.
    rewrite length_app; simpl; lia.
  - rewrite bind_ret. destruct execution as [st].
    induction st as [|x st' _] using rev_ind.
    + rewrite pop_empty; discriminate.
    + rewrite pop_snoc; unfold prefixed; simpl fst; simpl snd.
      intros E; injection E as <- <-.
      rewrite pushes_app, pops_app, Hpu', Hpo'.
      cbn [stack pushes pops]; rewrite length_app; simpl; lia.
  - rewrite bind_ret; unfold prefixed; simpl.
    intros E; injection E as <- <-.
    rewrite app_nil_r, Hpu', Hpo'; lia.
Qed.

Lemma scan_depth (lines : list string) (execution execution' : ExecutionContext)
  (t : list (obs Event)) :
  scan execution lines = (t, Ok execution') ->
  List.length (stack execution') + pops t
  = List.length (stack execution) + pushes t.
Proof.
  revert execution t; induction lines as [|log rest IH]; intros execution t H.
  - injection H as <- <-; simpl; lia.
  - rewrite scan_cons in H.
    destruct (step execution log) as [os [ex1|e]] eqn:S; [|discriminate].
    rewrite bind_ok, prefixed_app in H.
    destruct (scan ex1 rest) as [t1 [ex2|e]] eqn:R; [|discriminate].
    unfold prefixed in H; simpl in H; injection H as <- <-.
    pose proof (step_depth _ _ _ _ S). pose proof (IH _ _ R).
    change (ToNext (Some log) :: os ++ t1) with ([ToNext (Some log)] ++ os ++ t1).
    rewrite !pushes_app, !pops_app; simpl; lia.
Qed.

(** X4: whenever [parse_logs] returns, on any input, the depth of the
    stack it leaves is one, for the seeded entry, plus the pushes minus
    the pops it made. *)
Theorem depth_counts_pushes_and_pops (lines : list string)
  (t : list (obs Event)) (execution : ExecutionContext) :
  parse_logs_execution lines = (t, Ok execution) ->
  List.length (stack execution) + pops t = 1 + pushes t.
Proof.
  destruct lines as [|first rest]; [discriminate|].
  rewrite parse_logs_execution_cons.
  destruct (ExecutionContext_init (Some first)) as [execution0|e] eqn:I;
    [|discriminate].
  unfold lift; rewrite bind_ok, prefixed_nil.
  destruct (scan execution0 rest) as [t1 [ex1|e]] eqn:S; [|discriminate].
  unfold prefixed; simpl; intros E; injection E as <- <-.
  destruct (init_stack _ _ I) as [p ->].
  pose proof (scan_depth _ _ _ _ S) as H; simpl in H |- *; lia.
Qed.

Lemma pushed_app (t t' : list (obs Event)) :
  pushed (t ++ t') = pushed t ++ pushed t'.
Proof.
  induction t as [|o t IH]; [reflexivity|].
  destruct o; simpl; rewrite IH; reflexivity.
Qed.

Lemma handle_log_new_program (execution : ExecutionContext) (log : string)
  (t : list (obs Event)) (event : option Event) (p : string) (did_pop : bool) :
  handle_log execution log = (t, Ok (event, Some p, did_pop)) ->
  p = program_id \/ p = "cpi".
Proof.
  rewrite handle_log_top.
  assert (Hs : system_log log = (t, Ok (event, Some p, did_pop))
               -> p = program_id \/ p = "cpi").
  { rewrite system_log_eq.
    destruct (handle_system_log log) as [[np dp]|e] eqn:E; [|discriminate].
    intros H; injection H as _ _ -> ->.
    destruct (handle_system_log_answers _ _ _ E)
      as [[F _]|[[F _]|[[F _]|[F _]]]]; try discriminate;
      injection F as ->; auto. }
  destruct (target_on_top execution); [|exact Hs].
  unfold handle_program_log.
  destruct (Str.startswith log "Program log:"); [|exact Hs].
  cbv zeta; rewrite bind_tell.
  destruct (b64decode (Str.slice_from LOG_START_INDEX log)) as [decoded|e].
  - rewrite bind_tell; discriminate.
  - destruct e; discriminate.
Qed.

Lemma handle_log_pushed (execution : ExecutionContext) (log : string)
  (t : list (obs Event)) (r : result (option Event * option string * bool)) :
  handle_log execution log = (t, r) -> pushed t = [].
Proof.
  rewrite handle_log_top.
  assert (Hs : system_log log = (t, r) -> pushed t = []).
  { rewrite system_log_eq; intros H; injection H as <- _; reflexivity. }
  destruct (target_on_top execution); [|exact Hs].
  unfold handle_program_log.
  destruct (Str.startswith log "Program log:"); [|exact Hs].
  cbv zeta; rewrite bind_tell.
  destruct (b64decode (Str.slice_from LOG_START_INDEX log)) as [decoded|e].
  - rewrite bind_tell; intros H; injection H as <- _; reflexivity.
  - destruct e; intros H; injection H as <- _; reflexivity.
Qed.

Lemma pushed_pop (execution : ExecutionContext) :
  pushed (fst (pop execution)) = [].
Proof. unfold pop; destruct (stack execution); reflexivity. Qed.

Lemma step_pushed (execution : ExecutionContext) (log : string) :
  Forall (fun p => p = program_id \/ p = "cpi")
    (pushed (fst (step execution log))).
Proof.
  destruct (handle_log execution log) as [t0 r] eqn:H.
  rewrite (step_of_handle_log _ _ _ _ H).
  unfold prefixed at 1; cbn [fst]; rewrite pushed_app.
  rewrite (handle_log_pushed _ _ _ _ H); cbn [app].
  destruct r as [[[event np] dp]|e]; [|constructor].
  unfold prefixed at 1; cbn [fst]; rewrite pushed_app.
  replace (pushed match event with
                  | Some e => [Callback e]
                  | None => []
                  end) with (@nil string) by (destruct event; reflexivity).
  cbn [app].
  destruct np as [p|].
  - pose proof (handle_log_new_program _ _ _ _ _ _ H) as Hp.
    unfold push; rewrite bind_assoc, bind_tell, bind_ret.
    unfold prefixed; cbn [fst app pushed].
    destruct dp; [rewrite pushed_pop|];
      (constructor; [exact Hp|constructor]).
  - rewrite bind_ret. destruct dp; [rewrite pushed_pop|]; constructor.
Qed.

Lemma scan_pushed (execution : ExecutionContext) (lines : list string) :
  Forall (fun p => p = program_id \/ p = "cpi")
    (pushed (fst (scan execution lines))).
Proof.
  revert execution; induction lines as [|log rest IH]; intros execution.
  - constructor.
  - rewrite scan_cons.
    pose proof (step_pushed execution log) as H.
    destruct (step execution log) as [os [ex1|e]]; simpl in H.
    + rewrite bind_ok, prefixed_app; simpl.
      rewrite pushed_app; apply Forall_app; split; [exact H|apply IH].
    + simpl; exact H.
Qed.

Lemma seeded_stack_push (seed : string) (st : list string) (p : string) :
  seeded_stack seed st ->
  p = program_id \/ p = "cpi" ->
  seeded_stack seed (st ++ [p]).
Proof.
  intros (entries & Hst & Hall) Hp.
  exists (entries ++ [p]); split.
  - destruct Hst as [->| ->]; [left|right]; reflexivity.
  - apply Forall_app; split; [exact Hall|constructor; [exact Hp|constructor]].
Qed.

Lemma seeded_stack_pop (seed : string) (st : list string) (top : string) :
  seeded_stack seed (st ++ [top]) ->
  seeded_stack seed st.
Proof.
  intros (entries & Hst & Hall).
  destruct Hst as [Hst|Hst].
  - exists st; split; [left; reflexivity|].
    rewrite <- Hst in Hall; apply Forall_app in Hall as [Hall _]; exact Hall.
  - destruct entries as [|x entries' _] using rev_ind.
    + change [seed] with ([] ++ [seed]) in Hst.
      apply app_inj_tail in Hst as [-> _].
      exists []; split; [left; reflexivity|constructor].
    + change (seed :: entries' ++ [x]) with ((seed :: entries') ++ [x]) in Hst.
      apply app_inj_tail in Hst as [-> _].
      exists entries'; split; [right; reflexivity|].
      apply Forall_app in Hall as [Hall _]; exact Hall.
Qed.

Lemma step_seeded_stack (seed : string) (execution execution' : ExecutionContext)
  (log : string) (t : list (obs Event)) :
  step execution log = (t, Ok execution') ->
  seeded_stack seed (stack execution) ->
  seeded_stack seed (stack execution').
Proof.
  destruct (handle_log execution log) as [t0 r] eqn:H.
  rewrite (step_of_handle_log _ _ _ _ H).
  destruct r as [[[event np] dp]|e]; [|discriminate].
  rewrite prefixed_app.
  destruct np as [p|]; destruct dp.
  - unfold push; rewrite bind_assoc, bind_tell, !bind_ret.
    rewrite pop_snoc; unfold prefixed; simpl.
    intros E; injection E as _ <-; intros Hst; exact Hst.
  - pose proof (handle_log_new_program _ _ _ _ _ _ H) as Hp.
    unfold push; rewrite bind_assoc, bind_tell, !bind_ret.
    unfold prefixed; simpl.
    intros E; injection E as _ <-; intros Hst.
    apply seeded_stack_push; assumption.
  - rewrite bind_ret. destruct execution as [st].
    induction st as [|x st' _] using rev_ind.
    + rewrite pop_empty; discriminate.
    + rewrite pop_snoc; unfold prefixed; simpl fst; simpl snd.
      intros E; injection E as _ <-; intros Hst.
      exact (seeded_stack_pop _ _ _ Hst).
  - rewrite bind_ret; unfold prefixed; simpl.
    intros E; injection E as _ <-; intros Hst; exact Hst.
Qed.

Lemma states_seeded_stack (seed : string) (execution : ExecutionContext)
  (lines : list string) :
  seeded_stack seed (stack execution) ->
  Forall (fun execution' => seeded_stack seed (stack execution'))
    (states execution lines).
Proof.
  revert execution; induction lines as [|log rest IH]; intros execution Hst;
    [constructor|].
  cbn [states].
  destruct (step execution log) as [os [ex1|e]] eqn:S; [|constructor].
  pose proof (step_seeded_stack _ _ _ _ _ S Hst) as Hst1.
  constructor; [exact Hst1|exact (IH _ Hst1)].
Qed.

(** X5: on any input, every entry [parse_logs] pushes is the target or
    [cpi].  The one entry of the stack that can be another text is the
    entry [__init__] seeds from the first line: after every round the
    stack is that entry, if it has not been popped, under entries that
    are the target or [cpi]. *)
Theorem only_target_or_cpi_pushed (lines : list string) :
  Forall (fun p => p = program_id \/ p = "cpi")
    (pushed (fst (parse_logs lines)))
  /\ forall (first : string) (rest : list string)
            (execution0 : ExecutionContext),
       lines = first :: rest ->
       ExecutionContext_init (Some first) = Ok execution0 ->
       exists seed : string,
         execution0 = {| stack := [seed] |}
         /\ Forall (fun execution => seeded_stack seed (stack execution))
              (states execution0 rest).
Proof.
  split.
  - rewrite fst_parse_logs.
    destruct lines as [|first rest]; [constructor|].
    rewrite parse_logs_execution_cons.
    destruct (ExecutionContext_init (Some first)) as [execution|e];
      [|constructor].
    unfold lift; rewrite bind_ok, prefixed_nil; simpl.
    apply scan_pushed.
  - intros first rest execution0 _ Hinit.
    destruct (init_stack _ _ Hinit) as [seed ->].
    exists seed; split; [reflexivity|].
    apply states_seeded_stack.
    exists []; split; [right; reflexivity|constructor].
Qed.

(** ** Where events come from *)

Lemma handle_log_callbacks (execution : ExecutionContext) (log : string)
  (t : list (obs Event)) (r : result (option Event * option string * bool)) :
  handle_log execution log = (t, r) -> callbacks t = [].
Proof.
  rewrite handle_log_top.
  assert (Hs : system_log log = (t, r) -> callbacks t = []).
  { rewrite system_log_eq; intros H; injection H as <- _; reflexivity. }
  destruct (target_on_top execution); [|exact Hs].
  unfold handle_program_log.
  destruct (Str.startswith log "Program log:"); [|exact Hs].
  cbv zeta; rewrite bind_tell.
  destruct (b64decode (Str.slice_from LOG_START_INDEX log)) as [decoded|e].
  - rewrite bind_tell; intros H; injection H as <- _; reflexivity.
  - destruct e; intros H; injection H as <- _; reflexivity.
Qed.

(** An event is answered by the [msg!] branch only. *)
Lemma handle_log_event_origin (execution : ExecutionContext) (log : string)
  (t : list (obs Event)) (e : Event) (new_program : option string)
  (did_pop : bool) :
  handle_log execution log = (t, Ok (Some e, new_program, did_pop)) ->
  target_on_top execution = true
  /\ Str.startswith log "Program log:" = true
  /\ exists decoded,
       b64decode (Str.slice_from LOG_START_INDEX log) = Ok decoded
       /\ events_parse decoded = Some e.
Proof.
  rewrite handle_log_top.
  assert (Hs : system_log log <> (t, Ok (Some e, new_program, did_pop))).
  { rewrite system_log_eq.
    destruct (handle_system_log log) as [[np dp]|x]; discriminate. }
  destruct (target_on_top execution); [|intros H; elim (Hs H)].
  unfold handle_program_log.
  destruct (Str.startswith log "Program log:"); [|intros H; elim (Hs H)].
  cbv zeta; rewrite bind_tell.
  destruct (b64decode (Str.slice_from LOG_START_INDEX log)) as [decoded|x].
  - rewrite bind_tell. unfold prefixed, ret; cbn [fst snd].
    intros H; injection H as _ H _ _.
    repeat split; eauto.
  - destruct x; discriminate.
Qed.

Lemma callbacks_pop (execution : ExecutionContext) :
  callbacks (fst (pop execution)) = [].
Proof. unfold pop; destruct (stack execution); reflexivity. Qed.

Lemma step_callbacks (execution : ExecutionContext) (log : string)
  (t : list (obs Event)) (r : result (option Event * option string * bool)) :
  handle_log execution log = (t, r) ->
  callbacks (fst (step execution log))
  = match r with
    | Ok (Some e, _, _) => [e]
    | _ => []
    end.
Proof.
  intros H; rewrite (step_of_handle_log _ _ _ _ H).
  unfold prefixed at 1; cbn [fst]; rewrite callbacks_app.
  rewrite (handle_log_callbacks _ _ _ _ H); cbn [app].
  destruct r as [[[event np] dp]|x]; [|reflexivity].
  unfold prefixed at 1; cbn [fst]; rewrite callbacks_app.
  assert (Hrest : callbacks
                    (fst (execution1 <- match np with
                                        | Some p => push execution p
                                        | None => ret execution
                                        end ;;
                          if dp then pop execution1 else ret execution1))
                  = []).
  { destruct np as [p|].
    - unfold push; rewrite bind_assoc, bind_tell, bind_ret.
      unfold prefixed; cbn [fst app callbacks].
      destruct dp; [apply callbacks_pop|reflexivity].
    - rewrite bind_ret; destruct dp; [apply callbacks_pop|reflexivity]. }
  rewrite Hrest, app_nil_r; destruct event; reflexivity.
Qed.

Lemma step_callback_origin (execution : ExecutionContext) (log : string)
  (e : Event) :
  In e (callbacks (fst (step execution log))) ->
  target_on_top execution = true
  /\ Str.startswith log "Program log:" = true
  /\ exists decoded,
       b64decode (Str.slice_from LOG_START_INDEX log) = Ok decoded
       /\ events_parse decoded = Some e.
Proof.
  destruct (handle_log execution log) as [t r] eqn:H.
  rewrite (step_callbacks _ _ _ _ H).
  destruct r as [[[[e'|] np] dp]|x]; try contradiction.
  intros [->|[]]. exact (handle_log_event_origin _ _ _ _ _ _ H).
Qed.

Lemma scan_callback_origin (lines : list string) (execution : ExecutionContext)
  (e : Event) :
  In e (callbacks (fst (scan execution lines))) ->
  exists (pre : list string) (log : string) (post : list string)
         (t : list (obs Event)) (execution' : ExecutionContext)
         (decoded : bytes),
    lines = pre ++ log :: post
    /\ rounds execution pre = (t, Ok execution')
    /\ target_on_top execution' = true
    /\ Str.startswith log "Program log:" = true
    /\ b64decode (Str.slice_from LOG_START_INDEX log) = Ok decoded
    /\ events_parse decoded = Some e.
Proof.
  revert execution; induction lines as [|log rest IH]; intros execution H.
  - simpl in H; contradiction.
  - rewrite scan_cons in H.
    assert (Hhere : In e (callbacks (fst (step execution log))) ->
                    exists pre log0 post t execution' decoded,
                      log :: rest = pre ++ log0 :: post
                      /\ rounds execution pre = (t, Ok execution')
                      /\ target_on_top execution' = true
                      /\ Str.startswith log0 "Program log:" = true
                      /\ b64decode (Str.slice_from LOG_START_INDEX log0)
                         = Ok decoded
                      /\ events_parse decoded = Some e).
    { intros Hin.
      destruct (step_callback_origin _ _ _ Hin) as (Ht & Hm & decoded & B & P).
      exists [], log, rest, [], execution, decoded.
      repeat split; assumption. }
    destruct (step execution log) as [os [ex1|x]] eqn:S.
    + rewrite bind_ok, prefixed_app in H.
      unfold prefixed in H; cbn [fst app callbacks] in H.
      rewrite callbacks_app in H; apply in_app_or in H as [H|H].
      * apply Hhere; exact H.
      * destruct (IH _ H)
          as (pre & log0 & post & t & ex' & decoded & -> & R & Rest).
        exists (log :: pre), log0, post, (ToNext (Some log) :: os ++ t),
          ex', decoded.
        split; [reflexivity|split; [|exact Rest]].
        rewrite (rounds_step _ _ _ _ _ S), R; reflexivity.
    + cbn in H. apply Hhere; exact H.
Qed.

(** X6: every event handed to the callback was decoded from a line of
    the input after the first: a line that opens with [Program log:],
    met when the stack, after the lines before it, had the target on
    top, and whose text from [LOG_START_INDEX] on [b64decode] decoded to
    bytes that the coder parsed to that event. *)
Theorem delivered_event_origin (lines : list string) (e : Event) :
  In e (callbacks (fst (parse_logs lines))) ->
  exists (first : string) (pre : list string) (log : string)
         (post : list string) (execution0 execution : ExecutionContext)
         (t : list (obs Event)) (decoded : bytes),
    lines = first :: pre ++ log :: post
    /\ ExecutionContext_init (Some first) = Ok execution0
    /\ rounds execution0 pre = (t, Ok execution)
    /\ target_on_top execution = true
    /\ Str.startswith log "Program log:" = true
    /\ b64decode (Str.slice_from LOG_START_INDEX log) = Ok decoded
    /\ events_parse decoded = Some e.
Proof.
  rewrite fst_parse_logs.
  destruct lines as [|first rest]; [simpl; contradiction|].
  rewrite parse_logs_execution_cons.
  destruct (ExecutionContext_init (Some first)) as [execution0|x] eqn:I;
    [|simpl; contradiction].
  unfold lift; rewrite bind_ok, prefixed_nil.
  unfold prefixed; cbn [fst app callbacks]; intros H.
  destruct (scan_callback_origin _ _ _ H)
    as (pre & log & post & t & ex & decoded & -> & Rest).
  exists first, pre, log, post, execution0, ex, t, decoded.
  split; [reflexivity|split; [exact I|exact Rest]].
Qed.

(** X12: a [msg!] line of the target has no effect on the stack,
    whatever its text: if its round ends without an exception, the
    execution is the one it started from, and nothing was pushed or
    popped. *)
Theorem target_msg_leaves_stack (execution execution' : ExecutionContext)
  (log : string) (t : list (obs Event)) :
  authored execution log = true ->
  step execution log = (t, Ok execution') ->
  execution' = execution /\ pushes t = 0 /\ pops t = 0.
Proof.
  intros A; apply andb_true_iff in A as [Htop Hmsg].
  destruct (handle_log execution log) as [t0 r] eqn:H.
  destruct (handle_log_no_stack_ops _ _ _ _ H) as [Hpu Hpo].
  rewrite (step_of_handle_log _ _ _ _ H).
  assert (Hr : match r with
               | Ok (_, new_program, did_pop) =>
                   new_program = None /\ did_pop = false
               | Raise _ => True
               end).
  { rewrite handle_log_top, Htop in H; unfold handle_program_log in H.
    rewrite Hmsg in H; cbv zeta in H; rewrite bind_tell in H.
    destruct (b64decode (Str.slice_from LOG_START_INDEX log)) as [decoded|x].
    - rewrite bind_tell in H; injection H as _ <-; auto.
    - destruct x; injection H as _ <-; auto. }
  destruct r as [[[event np] dp]|x]; [|discriminate].
  destruct Hr as [-> ->].
  rewrite bind_ret, prefixed_app; unfold prefixed; cbn [fst snd].
  intros E; injection E as <- <-.
  rewrite app_nil_r, pushes_app, pops_app, Hpu, Hpo.
  destruct event; auto.
Qed.

(** ** Beyond the end of the outermost invocation *)

(** X7: once the stack is empty, a line that ends an invocation makes
    [execution.pop()] raise: [parse_logs] ends on an [IndexError] at
    that line, with the trace of the lines before it and no later line
    read. *)
Theorem pop_on_empty_stack_raises (first : string) (pre : list string)
  (log : string) (post : list string) (execution0 execution : ExecutionContext)
  (t : list (obs Event)) :
  ExecutionContext_init (Some first) = Ok execution0 ->
  rounds execution0 pre = (t, Ok execution) ->
  stack execution = [] ->
  handle_system_log log = Ok (None, true) ->
  parse_logs (first :: pre ++ log :: post)
  = (ToNext (Some first) :: t ++ [ToNext (Some log)], Raise IndexError).
Proof.
  intros Hinit Hpre Hempty Hend.
  destruct (step_invocation_end execution log Hend) as [_ Hstep].
  destruct execution as [st]; cbn [stack] in Hempty; subst st.
  rewrite pop_empty in Hstep.
  unfold parse_logs.
  rewrite (parse_logs_execution_app _ _ _ _ Hinit), Hpre, bind_ok.
  rewrite scan_cons, Hstep; reflexivity.
Qed.

(** ** Longer inputs *)

Lemma scan_rounds (execution : ExecutionContext) (lines : list string) :
  scan execution lines =
  (execution' <- rounds execution lines ;; scan execution' []).
Proof. rewrite <- (app_nil_r lines) at 1; apply scan_app. Qed.

Lemma scan_raise_rounds (execution : ExecutionContext) (lines : list string)
  (t : list (obs Event)) (e : exn) :
  scan execution lines = (t, Raise e) ->
  rounds execution lines = (t, Raise e).
Proof.
  rewrite scan_rounds.
  destruct (rounds execution lines) as [t' [ex|x]]; [discriminate|].
  intros H; exact H.
Qed.

Lemma scan_ok_rounds (execution execution' : ExecutionContext)
  (lines : list string) (t : list (obs Event)) :
  scan execution lines = (t, Ok execution') ->
  exists t', t = t' ++ [ToNext None]
             /\ rounds execution lines = (t', Ok execution').
Proof.
  rewrite scan_rounds.
  destruct (rounds execution lines) as [t' [ex|x]]; [|discriminate].
  rewrite bind_ok; unfold prefixed; cbn.
  intros H; injection H as <- <-; eauto.
Qed.

(** X11: an exception is final.  If [parse_logs] raises on a non-empty
    input, it raises the same exception, with the same trace, on every
    input that starts with these lines: the lines after the failing one
    are never looked at. *)
Theorem raise_is_final (first : string) (rest more : list string)
  (t : list (obs Event)) (e : exn) :
  parse_logs (first :: rest) = (t, Raise e) ->
  parse_logs (first :: rest ++ more) = (t, Raise e).
Proof.
  unfold parse_logs; rewrite !parse_logs_execution_cons.
  destruct (ExecutionContext_init (Some first)) as [execution0|x];
    [|intros H; exact H].
  unfold lift; rewrite !bind_ok, !prefixed_nil, scan_app.
  destruct (scan execution0 rest) as [t1 [ex1|x]] eqn:S.
  - discriminate.
  - rewrite (scan_raise_rounds _ _ _ _ S); intros H; exact H.
Qed.

(** X13: the scan looks no further than the line it is at.  If the scan
    of an input returns, the scan of that input followed by [more]
    lines does what the first did up to its last read, and goes on from
    the stack the first ended with; what the callback received from the
    first, it receives first, in the same order. *)
Theorem scan_extends (first : string) (rest more : list string)
  (t : list (obs Event)) (execution : ExecutionContext) :
  parse_logs_execution (first :: rest) = (t, Ok execution) ->
  exists t',
    t = t' ++ [ToNext None]
    /\ parse_logs_execution (first :: rest ++ more)
       = prefixed t' (scan execution more)
    /\ callbacks (fst (parse_logs (first :: rest ++ more)))
       = callbacks (fst (parse_logs (first :: rest)))
         ++ callbacks (fst (scan execution more)).
Proof.
  intros H.
  assert (H' := H); rewrite parse_logs_execution_cons in H'.
  destruct (ExecutionContext_init (Some first)) as [execution0|x] eqn:I;
    [|discriminate].
  unfold lift in H'; rewrite bind_ok, prefixed_nil in H'.
  destruct (scan execution0 rest) as [t1 [ex1|x]] eqn:S; [|discriminate].
  unfold prefixed in H'; cbn in H'; injection H' as <- <-.
  destruct (scan_ok_rounds _ _ _ _ S) as (t' & -> & R).
  exists (ToNext (Some first) :: t').
  assert (Hext : parse_logs_execution (first :: rest ++ more)
                 = prefixed (ToNext (Some first) :: t') (scan ex1 more)).
  { rewrite (parse_logs_execution_app _ _ _ _ I), R, bind_ok, prefixed_app.
    reflexivity. }
  split; [reflexivity|split; [exact Hext|]].
  rewrite !fst_parse_logs, Hext, H.
  unfold prefixed; cbn [fst].
  change (ToNext (Some first) :: t' ++ [ToNext None])
    with ((ToNext (Some first) :: t') ++ [ToNext None]).
  rewrite !callbacks_app; cbn [callbacks]; rewrite app_nil_r; reflexivity.
Qed.

(** ** A transaction of the target *)

(** No marker lies across the space that follows an identifier. *)
Lemma marker_absent_after_identifier (id rest : string) :
  Str.contains " " id = false ->
  Str.contains "Program " (id ++ " ") = false ->
  Str.contains "Program " rest = false ->
  Str.contains "Program " (id ++ " " ++ rest) = false.
Proof.
  induction id as [|x id IH]; intros Hid Hend Hrest.
  - cbn [append]. change (Str.contains "Program " (String " " rest))
      with (Str.contains "Program " rest). exact Hrest.
  - pose proof Hid as Hid'.
    apply no_char_cons in Hid' as [_ Hid'].
    change (Str.startswith (String x (id ++ " ")) "Program "
            || Str.contains "Program " (id ++ " ") = false) in Hend.
    change (Str.startswith (String x (id ++ " " ++ rest)) "Program "
            || Str.contains "Program " (id ++ " " ++ rest) = false).
    apply orb_false_iff in Hend as [Hhead Hend].
    rewrite (IH Hid' Hend Hrest), orb_false_r.
    destruct (Str.startswith (String x (id ++ " " ++ rest)) "Program ") eqn:S;
      [exfalso|reflexivity].
    change (Str.startswith (String x id ++ " " ++ rest)
              ("Program" ++ " " ++ "") = true) in S.
    apply same_identifier in S; [|exact Hid|reflexivity].
    injection S as -> ->; discriminate Hhead.
Qed.

Lemma init_invoke_line (id depth : string) :
  Str.contains " " id = false ->
  Str.contains "Program " (id ++ " invoke [" ++ depth) = false ->
  ExecutionContext_init (Some ("Program " ++ id ++ " invoke [" ++ depth)%string)
  = Ok {| stack := [id] |}.
Proof.
  intros Hid Hmarker; unfold ExecutionContext_init.
  rewrite (marker_split _ Hmarker); cbn [getitem nth_error rbind].
  rewrite (split_text_then_sep " " "invoke [" id depth Hid); reflexivity.
Qed.

(** X14: the log of a transaction in which the target invokes another
    program and writes an event after that program has returned: for
    every pair of distinct plain identifiers and every payload that
    decodes to bytes the coder parses to [e], [parse_logs] returns and
    the callback is called once, with [e]. *)
Theorem cpi_round_trip (other payload : string) (decoded : bytes) (e : Event) :
  plain_identifier program_id ->
  plain_identifier other ->
  other <> program_id ->
  b64decode payload = Ok decoded ->
  events_parse decoded = Some e ->
  parse_logs
    [("Program " ++ program_id ++ " invoke [" ++ "1]")%string;
     ("Program " ++ other ++ " invoke [" ++ "2]")%string;
     ("Program " ++ other ++ " success")%string;
     ("Program log: " ++ payload)%string;
     ("Program " ++ program_id ++ " success")%string]
  = ([ToNext (Some ("Program " ++ program_id ++ " invoke [" ++ "1]")%string);
      ToNext (Some ("Program " ++ other ++ " invoke [" ++ "2]")%string);
      Push "cpi";
      ToNext (Some ("Program " ++ other ++ " success")%string);
      Pop;
      ToNext (Some ("Program log: " ++ payload)%string);
      B64decode payload; EventsParse decoded; Callback e;
      ToNext (Some ("Program " ++ program_id ++ " success")%string);
      Pop;
      ToNext None],
     Ok tt).
Proof.
  intros (Hps & Hpc & Hpe) (Hos & Hoc & Hoe) Hneq Hb64 Hparse.
  assert (Hm : forall id rest,
             Str.contains " " id = false ->
             Str.contains "Program " (id ++ " ") = false ->
             Str.contains "Program " rest = false ->
             Str.contains "Program " (id ++ String " " rest) = false)
    by exact marker_absent_after_identifier.
  assert (Hc : forall id rest,
             Str.contains ":" id = false ->
             Str.contains ":" rest = false ->
             Str.contains ":" (id ++ rest) = false)
    by (intros; apply no_char_app; assumption).
  assert (E : (other =? program_id) = false)
    by (apply String.eqb_neq; exact Hneq).
  (* the first line *)
  unfold parse_logs; rewrite parse_logs_execution_cons.
  rewrite (init_invoke_line program_id "1]" Hps (Hm _ "invoke [1]" Hps Hpe eq_refl)).
  unfold lift; rewrite bind_ok, prefixed_nil.
  (* the invocation of the other program *)
  pose proof (handle_log_invoke_line {| stack := [program_id] |} other "2]"
                Hos Hps (Hc _ " invoke [2]" Hoc eq_refl)
                (Hm _ "invoke [2]" Hos Hoe eq_refl)) as L2.
  rewrite E in L2.
  rewrite (scan_step {| stack := [program_id] |}
             {| stack := [program_id; "cpi"] |} _ [Push "cpi"]).
  2:{ rewrite (step_of_handle_log _ _ _ _ L2), !prefixed_nil.
      unfold push; rewrite bind_assoc, bind_tell, !bind_ret; reflexivity. }
  (* its end *)
  rewrite (scan_step {| stack := [program_id; "cpi"] |}
             {| stack := [program_id] |} _ [Pop]).
  2:{ destruct (step_invocation_end {| stack := [program_id; "cpi"] |} _
                  (handle_system_log_success_line other Hos Hoc
                     (Hm _ "success" Hos Hoe eq_refl))) as [_ ->].
      apply (pop_snoc [program_id] "cpi"). }
  (* the event *)
  rewrite (scan_step {| stack := [program_id] |} {| stack := [program_id] |}
             _ [B64decode payload; EventsParse decoded; Callback e]).
  2:{ apply (step_event {| stack := [program_id] |}
               ("Program log: " ++ payload)%string decoded e);
        [|reflexivity|exact Hb64|exact Hparse].
      unfold target_on_top; cbn [stack rev app]; apply String.eqb_refl. }
  (* the end of the target *)
  rewrite (scan_step {| stack := [program_id] |} {| stack := [] |} _ [Pop]).
  2:{ destruct (step_invocation_end {| stack := [program_id] |} _
                  (handle_system_log_success_line program_id Hps Hpc
                     (Hm _ "success" Hps Hpe eq_refl))) as [_ ->].
      apply (pop_snoc [] program_id). }
  reflexivity.
Qed.

(** ** The payload of a [msg!] line *)

(** X15: the test for a [msg!] line covers the twelve characters of
    [Program log:], and the payload starts at [LOG_START_INDEX], one
    character further: the character after the colon is dropped
    unchecked, be it a space or not, and the text after it is what
    [b64decode] is given. *)
Theorem character_after_colon_dropped (execution : ExecutionContext)
  (c : ascii) (payload : string) (decoded : bytes) (e : Event) :
  target_on_top execution = true ->
  b64decode payload = Ok decoded ->
  events_parse decoded = Some e ->
  step execution ("Program log:" ++ String c payload)
  = ([B64decode payload; EventsParse decoded; Callback e], Ok execution).
Proof.
  intros Htop Hb64 Hparse.
  apply (step_event execution ("Program log:" ++ String c payload)%string
           decoded e Htop); [reflexivity|exact Hb64|exact Hparse].
Qed.

(** ** What [handle_system_log] looks at *)

(** X16: [handle_system_log] answers from the text before the first
    colon alone: two lines that agree up to their first colon get the
    same answer, whatever follows the colon. *)
Theorem text_after_colon_ignored (log_start rest rest' : string) :
  Str.contains ":" log_start = false ->
  handle_system_log (log_start ++ ":" ++ rest)
  = handle_system_log (log_start ++ ":" ++ rest').
Proof.
  intros H; unfold handle_system_log.
  rewrite !(log_start_colon _ _ H); reflexivity.
Qed.

(** X17: while the target is not on top of the stack, and when the
    stack is empty, a round calls neither [b64decode] nor the coder nor
    the callback, whatever the line is. *)
Theorem off_target_nothing_decoded (execution : ExecutionContext) (log : string) :
  target_on_top execution = false ->
  fst (handle_log execution log) = []
  /\ parse_calls (fst (step execution log)) = []
  /\ callbacks (fst (step execution log)) = []
  /\ Forall (fun o => o = Pop \/ exists p, o = Push p)
       (fst (step execution log)).
Proof.
  intros Htop.
  assert (H : handle_log execution log = system_log log)
    by (rewrite handle_log_top, Htop; reflexivity).
  assert (Hshape : Forall (fun o => o = Pop \/ exists p, o = @Push Event p)
                     (fst (step execution log))).
  { rewrite system_log_eq in H.
    rewrite (step_of_handle_log _ _ _ _ H), prefixed_nil.
    destruct (handle_system_log log) as [[np dp]|x] eqn:E; [|constructor].
    rewrite prefixed_nil.
    destruct (handle_system_log_answers _ _ _ E)
      as [[-> ->]|[[-> ->]|[[-> ->]|[-> ->]]]].
    - rewrite bind_ret; unfold pop.
      destruct (stack execution); repeat constructor.
    - unfold push; rewrite bind_assoc, bind_tell, !bind_ret.
      constructor; [right; eauto|constructor].
    - unfold push; rewrite bind_assoc, bind_tell, !bind_ret.
      constructor; [right; eauto|constructor].
    - rewrite bind_ret; constructor. }
  split; [rewrite H, system_log_eq; reflexivity|].
  assert (Hnone : parse_calls (fst (step execution log)) = []
                  /\ callbacks (fst (step execution log)) = []).
  { induction Hshape as [|o t [->|[p ->]] _ [IH1 IH2]]; split; auto. }
  destruct Hnone as [H1 H2]; repeat split; assumption.
Qed.

(** ** The pieces of a split *)

Lemma startswith_mono (sep a r : string) :
  Str.startswith a sep = true -> Str.startswith (a ++ r) sep = true.
Proof.
  revert a; induction sep as [|c sep IH]; intros a H; [reflexivity|].
  destruct a as [|x a]; [discriminate|].
  cbn [append Str.startswith] in H |- *.
  apply andb_true_iff in H as [-> H]; apply (IH _ H).
Qed.

Lemma contains_mono (sub a r : string) :
  Str.contains sub a = true -> Str.contains sub (a ++ r) = true.
Proof.
  induction a as [|x a IH]; intros H.
  - cbn [Str.contains] in H; rewrite orb_false_r in H.
    apply contains_startswith, (startswith_mono sub "" r H).
  - cbn [append Str.contains] in H |- *.
    apply orb_true_iff in H as [H|H].
    + pose proof (startswith_mono sub (String x a) r H) as S.
      cbn [append] in S; rewrite S; reflexivity.
    + rewrite (IH H); apply orb_true_r.
Qed.

(** No piece of a split holds the separator, and the first piece opens
    the text. *)
Lemma split_go_pieces (sep : string) (s : string) :
  sep <> EmptyString ->
  forall k,
    Forall (fun piece => Str.contains sep piece = false) (Str.split_go sep k s)
    /\ (k = 0 -> exists piece pieces r,
          Str.split_go sep 0 s = piece :: pieces /\ s = (piece ++ r)%string).
Proof.
  intros Hsep.
  assert (Hempty : Str.contains sep "" = false).
  { destruct sep; [congruence|reflexivity]. }
  induction s as [|c s IH]; intros k.
  - split; [repeat constructor; exact Hempty|].
    intros _; exists "", [], ""; split; reflexivity.
  - destruct k as [|k].
    + cbn [Str.split_go].
      destruct (Str.startswith (String c s) sep) eqn:S.
      * split.
        -- constructor; [exact Hempty|apply IH].
        -- intros _; exists "", (Str.split_go sep (String.length sep - 1) s),
             (String c s); split; reflexivity.
      * destruct (IH 0) as [Hall Hhd].
        destruct (Hhd eq_refl) as (piece & pieces & r & E & ->).
        rewrite E in Hall |- *.
        inversion Hall as [|? ? Hpiece Hpieces]; subst.
        split.
        -- constructor; [|exact Hpieces].
           cbn [Str.contains]; rewrite Hpiece, orb_false_r.
           destruct (Str.startswith (String c piece) sep) eqn:S';
             [|reflexivity].
           pose proof (startswith_mono sep (String c piece) r S') as S''.
           cbn [append] in S''; congruence.
        -- intros _; exists (String c piece), pieces, r; split; reflexivity.
    + split; [apply IH|discriminate].
Qed.

Lemma getitem_piece (sep s piece : string) (i : nat) :
  sep <> EmptyString ->
  getitem (Str.split s sep) i = Ok piece ->
  Str.contains sep piece = false.
Proof.
  intros Hsep H; unfold getitem in H.
  destruct (nth_error (Str.split s sep) i) as [p|] eqn:E; [|discriminate].
  injection H as ->.
  destruct (split_go_pieces sep s Hsep 0) as [Hall _].
  rewrite Forall_forall in Hall.
  apply Hall, (nth_error_In _ _ E).
Qed.

Lemma getitem_first_piece (sep s piece : string) :
  sep <> EmptyString ->
  getitem (Str.split s sep) 0 = Ok piece ->
  exists r, s = (piece ++ r)%string.
Proof.
  intros Hsep H.
  destruct (split_go_pieces sep s Hsep 0) as [_ Hhd].
  destruct (Hhd eq_refl) as (p & ps & r & E & ->).
  unfold Str.split in H; rewrite E in H; injection H as <-; eauto.
Qed.

(** X3: whatever first line [__init__] accepts, the stack it makes has
    one entry, and that entry holds neither the marker [Program ] nor
    the text [ invoke []: the identifier is cut at the first of them. *)
Theorem seeded_identifier_clean (log : string) (execution : ExecutionContext) :
  ExecutionContext_init (Some log) = Ok execution ->
  exists p,
    execution = {| stack := [p] |}
    /\ Str.contains "Program " p = false
    /\ Str.contains " invoke [" p = false.
Proof.
  unfold ExecutionContext_init.
  destruct (getitem (Str.split log "Program ") 1) as [after|x] eqn:A;
    [|destruct x; discriminate].
  cbn [rbind].
  destruct (getitem (Str.split after " invoke [") 0) as [p|x] eqn:P;
    [|destruct x; discriminate].
  intros H; injection H as <-.
  exists p; split; [reflexivity|split].
  - pose proof (getitem_piece _ _ _ _ marker_nonempty A) as Hafter.
    destruct (getitem_first_piece " invoke [" _ _ ltac:(discriminate) P)
      as [r ->].
    destruct (Str.contains "Program " p) eqn:C; [|reflexivity].
    rewrite (contains_mono _ _ r C) in Hafter; discriminate.
  - apply (getitem_piece " invoke [" after p 0); [discriminate|exact P].
Qed.

(** ** Other lines of the runtime *)

(** X18: a line [Program <word>:...] with a single word after the
    marker, such as [Program data:] or [Program return:], and
    [Program log:] itself when it is not taken as a [msg!] line of the
    target, has no second token: the round raises [IndexError],
    whatever the stack. *)
Theorem single_word_line_raises (execution : ExecutionContext)
  (word rest : string) :
  Str.contains " " word = false ->
  Str.contains ":" word = false ->
  Str.contains "Program " word = false ->
  authored execution ("Program " ++ word ++ ":" ++ rest) = false ->
  step execution ("Program " ++ word ++ ":" ++ rest) = ([], Raise IndexError).
Proof.
  intros Hspace Hcolon Hmarker Hsys.
  assert (Hstart : getitem (Str.split ("Program " ++ word ++ ":" ++ rest) ":") 0
                   = Ok ("Program " ++ word)%string).
  { apply (log_start_colon ("Program " ++ word) rest).
    apply (no_char_app ":" "Program "); [reflexivity|exact Hcolon]. }
  assert (Hraise : handle_system_log ("Program " ++ word ++ ":" ++ rest)
                   = Raise IndexError).
  { apply (handle_system_log_malformed _ _ Hstart); right.
    exists word; split.
    - rewrite (marker_split _ Hmarker); reflexivity.
    - rewrite (split_absent _ _ Hspace); reflexivity. }
  assert (Hlog : handle_log execution ("Program " ++ word ++ ":" ++ rest)
                 = ([], Raise IndexError)).
  { rewrite (handle_log_system _ _ Hsys), system_log_eq, Hraise; reflexivity. }
  rewrite (step_of_handle_log _ _ _ _ Hlog); reflexivity.
Qed.

(** How [handle_log] answers a line [Program <id> <word> ...] without a
    colon, whose second token is not [success] and which does not hold
    the text [invoke]. *)
Lemma handle_log_other_word_line (execution : ExecutionContext)
  (id word tail : string) :
  Str.contains " " id = false ->
  Str.contains " " word = false ->
  Str.contains ":" (id ++ " " ++ word ++ " " ++ tail) = false ->
  Str.contains "Program " (id ++ " " ++ word ++ " " ++ tail) = false ->
  Str.contains "invoke" (id ++ " " ++ word ++ " " ++ tail) = false ->
  word <> "success" ->
  handle_log execution ("Program " ++ id ++ " " ++ word ++ " " ++ tail)
  = ([], Ok (None, None, false)).
Proof.
  intros Hid Hword Hcolon Hmarker Hinvoke Hneq.
  assert (Hline : Str.contains ":"
                    ("Program " ++ id ++ " " ++ word ++ " " ++ tail) = false)
    by (apply (no_char_app ":" "Program "); [reflexivity|exact Hcolon]).
  assert (Hsys : handle_system_log
                   ("Program " ++ id ++ " " ++ word ++ " " ++ tail)
                 = Ok (None, false)).
  { rewrite (handle_system_log_tokens _ id word (word ++ " " ++ tail)
               (log_start_no_colon _ Hline) Hid Hmarker
               (first_token_spaced _ _ Hword)).
    apply String.eqb_neq in Hneq; rewrite Hneq.
    destruct (Str.startswith _ _) eqn:S.
    - change (program_id ++ " invoke")%string
        with (program_id ++ " " ++ "invoke")%string in S.
      rewrite <- (append_assoc program_id " " "invoke") in S.
      apply startswith_contains in S; congruence.
    - rewrite contains_invoke_marker, Hinvoke; reflexivity. }
  rewrite handle_log_system, system_log_eq, Hsys; [reflexivity|].
  unfold authored; rewrite (no_colon_not_msg _ Hline); apply andb_false_r.
Qed.


(** ** How many events *)

Lemma round_obs_one_callback (log : string) (os : list (obs Event)) :
  round_obs log os -> List.length (callbacks os) <= 1.
Proof. intros H; destruct H; simpl; lia. Qed.

Lemma scan_trace_callbacks_bound (lines : list string) (t : list (obs Event)) :
  scan_trace lines t -> List.length (callbacks t) <= List.length lines.
Proof.
  induction 1 as [lines| |log rest os t Hos _ IH]; simpl; try lia.
  rewrite callbacks_app, length_app.
  pose proof (round_obs_one_callback _ _ Hos); lia.
Qed.

(** X20: a line gives one event at most, and the first line gives none:
    on any input, the callback is called at most once per line after
    the first. *)
Theorem at_most_one_event_per_line (lines : list string) :
  List.length (callbacks (fst (parse_logs lines))) <= List.length lines - 1.
Proof.
  rewrite fst_parse_logs.
  destruct lines as [|first rest]; [simpl; lia|].
  rewrite parse_logs_execution_cons.
  destruct (ExecutionContext_init (Some first)) as [execution|x];
    [|simpl; lia].
  unfold lift; rewrite bind_ok, prefixed_nil.
  unfold prefixed; cbn [fst app callbacks List.length].
  pose proof (scan_trace_callbacks_bound _ _ (scan_scan_trace execution rest)).
  lia.
Qed.

(** ** Delivery *)

(** The callbacks of a round are the events the line is to deliver. *)
Lemma step_delivered (execution : ExecutionContext) (log : string) :
  callbacks (fst (step execution log)) = delivered execution log.
Proof.
  destruct (handle_log execution log) as [t r] eqn:H.
  rewrite (step_callbacks _ _ _ _ H).
  unfold delivered, authored.
  rewrite handle_log_top in H.
  assert (Hs : system_log log = (t, r) ->
               match r with
               | Ok (Some e, _, _) => [e]
               | _ => []
               end = []).
  { rewrite system_log_eq.
    destruct (handle_system_log log) as [[np dp]|x];
      intros E; injection E as _ <-; reflexivity. }
  destruct (target_on_top execution); cbn [andb]; [|exact (Hs H)].
  unfold handle_program_log in H.
  destruct (Str.startswith log "Program log:"); [|exact (Hs H)].
  cbv zeta in H; rewrite bind_tell in H.
  destruct (b64decode (Str.slice_from LOG_START_INDEX log)) as [decoded|x].
  - rewrite bind_tell in H.
    unfold prefixed, ret in H; cbn [fst snd] in H.
    injection H as _ <-.
    destruct (events_parse decoded); reflexivity.
  - destruct x; unfold prefixed, ret, raise in H; cbn [fst snd] in H;
      injection H as _ <-; reflexivity.
Qed.

Lemma scan_expected (execution : ExecutionContext) (lines : list string) :
  callbacks (fst (scan execution lines)) = expected_events execution lines.
Proof.
  revert execution; induction lines as [|log rest IH]; intros execution;
    [reflexivity|].
  rewrite scan_cons; cbn [expected_events].
  rewrite <- step_delivered.
  destruct (step execution log) as [os [execution'|x]].
  - rewrite bind_ok, prefixed_app.
    unfold prefixed; cbn [fst].
    rewrite !callbacks_app, IH; reflexivity.
  - unfold prefixed, bind; cbn [fst snd callbacks app].
    rewrite app_nil_r; reflexivity.
Qed.

Lemma parse_logs_expected (lines : list string) :
  callbacks (fst (parse_logs lines)) = expected_callbacks lines.
Proof.
  rewrite fst_parse_logs.
  destruct lines as [|first rest]; [reflexivity|].
  rewrite parse_logs_execution_cons; unfold expected_callbacks.
  destruct (ExecutionContext_init (Some first)) as [execution|x];
    [|reflexivity].
  unfold lift; rewrite bind_ok, prefixed_nil.
  unfold prefixed; cbn [fst app callbacks].
  apply scan_expected.
Qed.

(** The trace around a [msg!] line of the target that carries an event. *)
Lemma parse_logs_event_line (first : string) (pre : list string)
  (log : string) (post : list string) (execution0 execution : ExecutionContext)
  (t : list (obs Event)) (decoded : bytes) (e : Event) :
  ExecutionContext_init (Some first) = Ok execution0 ->
  rounds execution0 pre = (t, Ok execution) ->
  target_on_top execution = true ->
  Str.startswith log "Program log:" = true ->
  b64decode (Str.slice_from LOG_START_INDEX log) = Ok decoded ->
  events_parse decoded = Some e ->
  fst (parse_logs (first :: pre ++ log :: post))
  = (ToNext (Some first) :: t)
    ++ [ToNext (Some log); B64decode (Str.slice_from LOG_START_INDEX log);
        EventsParse decoded; Callback e]
    ++ fst (scan execution post).
Proof.
  intros Hinit Hpre Htop Hmsg Hb64 Hparse.
  rewrite fst_parse_logs, (parse_logs_execution_app _ _ _ _ Hinit).
  rewrite Hpre, bind_ok.
  rewrite (scan_step _ _ _ _ _ (step_event _ _ _ _ Htop Hmsg Hb64 Hparse)).
  unfold prefixed; cbn [fst app]; reflexivity.
Qed.

(** C3: the trace of [parse_logs] is made of one block per line read, in
    the order of the lines; in the block of a line, a call to the callback
    comes directly after the call to the coder that returned its event,
    before the next line is read; the callback receives the events the
    coder returned, each once and in that order, and these are the events
    of the [msg!] lines met with the target on top, line by line; a scan
    that returns has read every line, in order, and then the end of the
    input.  A [msg!] line met with the target on top, whose payload
    decodes to bytes the coder parses to [e], has [e] handed to the
    callback in its own block, after the blocks of the lines before it
    and before the line after it is read: the callbacks are those of the
    lines before, then [e], then those of the lines after. *)
Theorem synchronous_in_order_delivery (lines : list string) :
  scan_trace lines (fst (parse_logs lines))
  /\ callbacks (fst (parse_logs lines)) = decoded_events (fst (parse_logs lines))
  /\ callbacks (fst (parse_logs lines)) = expected_callbacks lines
  /\ match snd (parse_logs lines) with
     | Ok _ => reads (fst (parse_logs lines)) = map Some lines ++ [None]
     | Raise _ => True
     end
  /\ forall (first : string) (pre : list string) (log : string)
            (post : list string) (execution0 execution : ExecutionContext)
            (t : list (obs Event)) (decoded : bytes) (e : Event),
       lines = first :: pre ++ log :: post ->
       ExecutionContext_init (Some first) = Ok execution0 ->
       rounds execution0 pre = (t, Ok execution) ->
       target_on_top execution = true ->
       Str.startswith log "Program log:" = true ->
       b64decode (Str.slice_from LOG_START_INDEX log) = Ok decoded ->
       events_parse decoded = Some e ->
       fst (parse_logs lines)
       = (ToNext (Some first) :: t)
         ++ [ToNext (Some log); B64decode (Str.slice_from LOG_START_INDEX log);
             EventsParse decoded; Callback e]
         ++ fst (scan execution post)
       /\ callbacks (fst (parse_logs lines))
          = callbacks t ++ e :: callbacks (fst (scan execution post)).
Proof.
  split; [apply parse_logs_scan_trace|split; [|split; [|split]]].
  - apply (scan_trace_callbacks lines), parse_logs_scan_trace.
  - apply parse_logs_expected.
  - rewrite fst_parse_logs; unfold parse_logs.
    destruct lines as [|first rest]; [exact I|].
    rewrite parse_logs_execution_cons.
    destruct (ExecutionContext_init (Some first)) as [execution|e]; [|exact I].
    unfold lift; rewrite bind_ok, prefixed_nil.
    destruct (scan execution rest) as [t [execution'|e]] eqn:S; [|exact I].
    simpl. rewrite (scan_reads _ _ _ _ S); reflexivity.
  - intros first pre log post execution0 execution t decoded e
           -> Hinit Hpre Htop Hmsg Hb64 Hparse.
    pose proof (parse_logs_event_line _ _ _ post _ _ _ _ _
                  Hinit Hpre Htop Hmsg Hb64 Hparse) as Htrace.
    split; [exact Htrace|].
    rewrite Htrace, !callbacks_app; reflexivity.
Qed.

(** ** Popping *)

(** A text without the first character of [sub] has no part in an
    occurrence of [sub]. *)
Lemma contains_skip (c : ascii) (sub' a s : string) :
  Str.contains (String c "") a = false ->
  Str.contains (String c sub') (a ++ s) = Str.contains (String c sub') s.
Proof.
  intros Ha; induction a as [|x a IH]; [reflexivity|].
  apply no_char_cons in Ha as [Hx Ha].
  cbn [append Str.contains Str.startswith].
  rewrite Hx, (IH Ha); reflexivity.
Qed.

(** The text after the marker in the invocation line of a plain
    identifier holds no colon and no second marker. *)
Lemma plain_invoke_line (id depth : string) :
  plain_identifier id ->
  plain_depth depth ->
  Str.contains ":" (id ++ " invoke [" ++ depth) = false
  /\ Str.contains "Program " (id ++ " invoke [" ++ depth) = false.
Proof.
  intros (Hspace & Hcolon & Hend) (Hdcolon & Hdmarker); split.
  - apply no_char_app; [exact Hcolon|].
    apply (no_char_app ":" " invoke ["); [reflexivity|exact Hdcolon].
  - change (id ++ " invoke [" ++ depth)%string
      with (id ++ " " ++ ("invoke [" ++ depth))%string.
    apply (marker_absent_after_identifier _ _ Hspace Hend).
    rewrite (contains_skip "P" "rogram " "invoke [" depth); [exact Hdmarker|].
    reflexivity.
Qed.

Lemma plain_success_line (id : string) :
  plain_identifier id ->
  Str.contains "Program " (id ++ " success") = false.
Proof.
  intros (Hspace & Hcolon & Hend).
  change (id ++ " success")%string with (id ++ " " ++ "success")%string.
  apply (marker_absent_after_identifier _ _ Hspace Hend); reflexivity.
Qed.

(** The round of the invocation line of a plain identifier. *)
Lemma step_invoke_line (st : list string) (id depth : string) :
  Str.contains " " program_id = false ->
  plain_identifier id ->
  plain_depth depth ->
  step {| stack := st |} (invoke_line id depth)
  = ([Push (if id =? program_id then program_id else "cpi")],
     Ok {| stack := st ++ [if id =? program_id then program_id else "cpi"] |}).
Proof.
  intros Hpid Hid Hdepth.
  destruct (plain_invoke_line _ _ Hid Hdepth) as [Hcolon Hmarker].
  destruct Hid as (Hspace & _ & _).
  pose proof (handle_log_invoke_line {| stack := st |} _ _
                Hspace Hpid Hcolon Hmarker) as Hlog.
  unfold invoke_line.
  rewrite (step_of_handle_log _ _ _ _ Hlog), !prefixed_nil.
  unfold push; rewrite bind_assoc, bind_tell, !bind_ret; reflexivity.
Qed.

(** The round of the success line of a plain identifier. *)
Lemma step_success_line (st : list string) (top id : string) :
  plain_identifier id ->
  step {| stack := st ++ [top] |} (success_line id)
  = ([Pop], Ok {| stack := st |}).
Proof.
  intros Hid.
  pose proof (plain_success_line _ Hid) as Hmarker.
  destruct Hid as (Hspace & Hcolon & _).
  unfold success_line.
  destruct (step_invocation_end {| stack := st ++ [top] |} _
              (handle_system_log_success_line _ Hspace Hcolon Hmarker))
    as [_ ->].
  apply pop_snoc.
Qed.

(** The round of a line that [handle_system_log] answers as an
    invocation. *)
Lemma step_invocation (st : list string) (log : string) (p : string)
  (did_pop : bool) :
  handle_system_log log = Ok (Some p, did_pop) ->
  step {| stack := st |} log = ([Push p], Ok {| stack := st ++ [p] |}).
Proof.
  intros Hsys.
  assert (Hdp : did_pop = false).
  { destruct (handle_system_log_answers _ _ _ Hsys)
      as [[F _]|[[_ ->]|[[_ ->]|[F _]]]]; try discriminate; reflexivity. }
  subst did_pop.
  assert (Hlog : handle_log {| stack := st |} log
                 = ([], Ok (None, Some p, false))).
  { rewrite handle_log_system, system_log_eq, Hsys; [reflexivity|].
    unfold authored; rewrite (invocation_end_not_msg _ _ Hsys).
    apply andb_false_r. }
  rewrite (step_of_handle_log _ _ _ _ Hlog), !prefixed_nil.
  unfold push; rewrite bind_assoc, bind_tell, !bind_ret; reflexivity.
Qed.

(** C10: a line answered as the end of an invocation is answered so by
    [handle_system_log], which sees the line only; whatever entry [top]
    is last on whatever stack, the round removes it, with no comparison
    to the identifier the line names.  A line that [handle_system_log]
    answers as an invocation has the target or [cpi] pushed by its round,
    and [cpi] whenever its text does not start with
    [Program <target> invoke]; the line of the end of an invocation that
    follows it pops that entry, whatever the two lines name.  The
    invocation line of every plain identifier other than the target, in
    particular, is pushed as [cpi] and popped by that line. *)
Theorem pop_is_identifier_blind (execution : ExecutionContext) (log : string)
  (t : list (obs Event)) (event : option Event) (new_program : option string) :
  handle_log execution log = (t, Ok (event, new_program, true)) ->
  handle_system_log log = Ok (None, true)
  /\ (forall (st : list string) (top : string) (rest : list string),
        scan {| stack := st ++ [top] |} (log :: rest)
        = prefixed [ToNext (Some log); Pop] (scan {| stack := st |} rest))
  /\ (forall (other : string) (p : string) (did_pop : bool),
        handle_system_log other = Ok (Some p, did_pop) ->
        did_pop = false
        /\ (p = program_id \/ p = "cpi")
        /\ (forall log_start,
              getitem (Str.split other ":") 0 = Ok log_start ->
              Str.startswith log_start ("Program " ++ program_id ++ " invoke")
              = false ->
              p = "cpi")
        /\ (forall st : list string,
              step {| stack := st |} other
              = ([Push p], Ok {| stack := st ++ [p] |}))
        /\ (forall (st : list string) (rest : list string),
              scan {| stack := st |} (other :: log :: rest)
              = prefixed [ToNext (Some other); Push p; ToNext (Some log); Pop]
                  (scan {| stack := st |} rest)))
  /\ (forall (id depth : string) (st : list string) (rest : list string),
        Str.contains " " program_id = false ->
        plain_identifier id ->
        plain_depth depth ->
        id <> program_id ->
        scan {| stack := st |} (invoke_line id depth :: log :: rest)
        = prefixed [ToNext (Some (invoke_line id depth)); Push "cpi";
                    ToNext (Some log); Pop]
            (scan {| stack := st |} rest)).
Proof.
  intros Hlog.
  assert (Hsys : handle_system_log log = Ok (None, true)).
  { rewrite handle_log_top in Hlog.
    assert (Hs : system_log log = (t, Ok (event, new_program, true))
                 -> handle_system_log log = Ok (None, true)).
    { rewrite system_log_eq.
      destruct (handle_system_log log) as [[np dp]|e] eqn:E; [|discriminate].
      intros H; injection H as _ _ _ ->.
      destruct (handle_system_log_answers _ _ _ E)
        as [[-> _]|[[_ F]|[[_ F]|[_ F]]]]; try discriminate; reflexivity. }
    destruct (target_on_top execution); [|exact (Hs Hlog)].
    unfold handle_program_log in Hlog.
    destruct (Str.startswith log "Program log:"); [|exact (Hs Hlog)].
    cbv zeta in Hlog; rewrite bind_tell in Hlog.
    destruct (b64decode (Str.slice_from LOG_START_INDEX log)) as [decoded|e].
    - rewrite bind_tell in Hlog; discriminate.
    - destruct e; discriminate. }
  assert (Hpop : forall (st : list string) (top : string) (rest : list string),
             scan {| stack := st ++ [top] |} (log :: rest)
             = prefixed [ToNext (Some log); Pop] (scan {| stack := st |} rest)).
  { intros st top rest.
    rewrite scan_cons.
    destruct (step_invocation_end {| stack := st ++ [top] |} log Hsys)
      as [_ ->].
    rewrite pop_snoc, bind_ok, prefixed_app; reflexivity. }
  split; [exact Hsys|split; [exact Hpop|split]].
  - intros other p did_pop Hother.
    pose proof (handle_system_log_answers _ _ _ Hother) as Hans.
    assert (Hdp : did_pop = false).
    { destruct Hans as [[F _]|[[_ ->]|[[_ ->]|[F _]]]];
        try discriminate; reflexivity. }
    split; [exact Hdp|split; [|split; [|split]]].
    + destruct Hans as [[F _]|[[F _]|[[F _]|[F _]]]]; try discriminate;
        injection F as ->; auto.
    + intros log_start Hstart Hprefix.
      unfold handle_system_log, rbind in Hother; rewrite Hstart in Hother.
      cbv beta iota in Hother.
      destruct (getitem (Str.split log_start "Program ") 1) as [after|];
        [|discriminate].
      destruct (getitem (Str.split after " ") 1) as [token|]; [|discriminate].
      destruct (token =? "success"); [discriminate|].
      rewrite Hprefix in Hother.
      destruct (Str.contains "invoke" log_start); [|discriminate].
      injection Hother as <- _; reflexivity.
    + intros st; exact (step_invocation st _ _ _ Hother).
    + intros st rest.
      rewrite (scan_step _ _ _ _ _ (step_invocation st _ _ _ Hother)).
      rewrite Hpop, prefixed_app; reflexivity.
  - intros id depth st rest Hpid Hid Hdepth Hneq.
    pose proof (step_invoke_line st _ _ Hpid Hid Hdepth) as Hstep.
    apply String.eqb_neq in Hneq; rewrite Hneq in Hstep.
    rewrite (scan_step _ _ _ _ _ Hstep), Hpop, prefixed_app; reflexivity.
Qed.

(** ** Balance of the stack *)

Lemma states_length (execution execution' : ExecutionContext)
  (lines : list string) (t : list (obs Event)) :
  rounds execution lines = (t, Ok execution') ->
  List.length (states execution lines) = List.length lines.
Proof.
  revert execution t; induction lines as [|log rest IH]; intros execution t H;
    [reflexivity|].
  rewrite rounds_cons in H; cbn [states].
  destruct (step execution log) as [os [ex1|e]]; [|discriminate].
  rewrite bind_ok in H.
  destruct (rounds ex1 rest) as [t1 [ex2|e]] eqn:R; [|discriminate].
  unfold prefixed in H; simpl in H; injection H as _ ->.
  cbn [List.length]; rewrite (IH _ _ R); reflexivity.
Qed.

(** A quiet line is answered with nothing to push and nothing to pop. *)
Lemma handle_log_quiet_line (top : option string)
  (execution : ExecutionContext) (log : string) :
  quiet_line top log ->
  (top = Some program_id -> target_on_top execution = true) ->
  exists (t : list (obs Event)) (event : option Event),
    handle_log execution log = (t, Ok (event, None, false)).
Proof.
  intros [log' Htop Hmsg Hb64|id word tail Hid Hword Hcolon Hmarker Hinvoke Hneq]
         Hon.
  - specialize (Hon Htop).
    destruct (b64decode (Str.slice_from LOG_START_INDEX log'))
      as [decoded|e] eqn:E.
    + exists [B64decode (Str.slice_from LOG_START_INDEX log');
              EventsParse decoded], (events_parse decoded).
      rewrite handle_log_top, Hon; unfold handle_program_log.
      rewrite Hmsg; cbv zeta.
      rewrite E, !bind_tell, prefixed_app; reflexivity.
    + rewrite (Hb64 e eq_refl) in E.
      exists [B64decode (Str.slice_from LOG_START_INDEX log')], None.
      apply handle_log_undecodable; assumption.
  - exists [], None.
    apply handle_log_other_word_line; assumption.
Qed.

(** Well-nested lines bring the stack back to where it was, push as
    often as they pop, raise nothing, and never take the stack below its
    depth at their start. *)
Lemma body_rounds (top : option string) (lines : list string) :
  Str.contains " " program_id = false ->
  body top lines ->
  forall st : list string,
    (top = Some program_id -> target_on_top {| stack := st |} = true) ->
    exists t : list (obs Event),
      rounds {| stack := st |} lines = (t, Ok {| stack := st |})
      /\ pushes t = pops t
      /\ Forall (fun e => List.length st <= List.length (stack e))
           (states {| stack := st |} lines).
Proof.
  intros Hpid Hbody.
  induction Hbody
    as [top|top log rest Hquiet _ IH
        |top id depth inner rest Hid Hdepth _ IHinner _ IHrest];
    intros st Hon.
  - exists []; repeat split; constructor.
  - destruct (handle_log_quiet_line _ {| stack := st |} _ Hquiet Hon)
      as (t0 & event & Hlog).
    destruct (step_quiet _ _ _ _ Hlog) as (t1 & Hstep & Hpu & Hpo).
    destruct (IH st Hon) as (t2 & Hrounds & Hbal & Hdepths).
    exists ((ToNext (Some log) :: t1) ++ t2); repeat split.
    + rewrite (rounds_step _ _ _ _ _ Hstep), Hrounds; reflexivity.
    + rewrite pushes_app, pops_app; simpl; lia.
    + cbn [states]; rewrite Hstep.
      constructor; [simpl; lia|exact Hdepths].
  - pose proof (step_invoke_line st _ _ Hpid Hid Hdepth) as Hcall.
    set (p := if id =? program_id then program_id else "cpi") in Hcall.
    assert (Hin : Some id = Some program_id ->
                  target_on_top {| stack := st ++ [p] |} = true).
    { intros E; injection E as E.
      rewrite target_on_top_snoc; unfold p.
      rewrite E, String.eqb_refl; apply String.eqb_refl. }
    destruct (IHinner (st ++ [p]) Hin) as (t1 & Hrounds1 & Hbal1 & Hdepths1).
    destruct (IHrest st Hon) as (t2 & Hrounds2 & Hbal2 & Hdepths2).
    pose proof (step_success_line st p _ Hid) as Hclose.
    exists ((ToNext (Some (invoke_line id depth)) :: [Push p])
              ++ t1 ++ (ToNext (Some (success_line id)) :: [Pop]) ++ t2).
    repeat split.
    + rewrite (rounds_step _ _ _ _ _ Hcall), rounds_app, Hrounds1, bind_ok.
      rewrite (rounds_step _ _ _ _ _ Hclose), Hrounds2; reflexivity.
    + rewrite !pushes_app, !pops_app; simpl; lia.
    + cbn [states]; rewrite Hcall.
      rewrite (states_app _ _ _ _ _ Hrounds1); cbn [states]; rewrite Hclose.
      constructor; [simpl; rewrite length_app; simpl; lia|].
      apply Forall_app; split.
      * eapply Forall_impl; [|exact Hdepths1].
        intros e He; cbn beta in He; rewrite length_app in He; simpl in He; lia.
      * constructor; [simpl; lia|exact Hdepths2].
Qed.

(** C8, amended: take an input whose first line opens an invocation of a
    plain identifier, whose lines up to the success line of that
    identifier are well nested, and whose lines after it, outside every
    invocation, are well nested too; the target has no space in its
    identifier.  Then [parse_logs] returns; the pops are one more than
    the pushes, the entry seeded by [__init__] being popped by the line
    that closes the first outermost invocation; the stack ends empty, at
    depth 0; and its depth is 1 or more after [__init__] and after every
    line before that closing line, after which it is 0. *)
Theorem closed_input_balance (id depth : string) (inner more : list string) :
  Str.contains " " program_id = false ->
  well_formed id depth inner more ->
  exists (t : list (obs Event)) (before after : list nat),
    parse_logs_execution (closed_log id depth inner more)
    = (t, Ok {| stack := [] |})
    /\ pops t = S (pushes t)
    /\ stack_depths (closed_log id depth inner more) = before ++ 0 :: after
    /\ List.length before = S (List.length inner)
    /\ Forall (fun d => 1 <= d) before
    /\ List.length after = List.length more.
Proof.
  intros Hpid (Hid & Hdepth & Hinner & Hmore).
  destruct (plain_invoke_line _ _ Hid Hdepth) as [_ Hmarker].
  pose proof (init_invoke_line id depth (proj1 Hid) Hmarker) as Hinit.
  assert (Hon : Some id = Some program_id ->
                target_on_top {| stack := [id] |} = true).
  { intros E; injection E as ->.
    change [program_id] with ([] ++ [program_id]).
    rewrite target_on_top_snoc; apply String.eqb_refl. }
  destruct (body_rounds _ _ Hpid Hinner [id] Hon)
    as (t1 & Hrounds1 & Hbal1 & Hdepths1).
  assert (Hoff : @None string = Some program_id ->
                 target_on_top {| stack := [] |} = true) by discriminate.
  destruct (body_rounds _ _ Hpid Hmore [] Hoff)
    as (t2 & Hrounds2 & Hbal2 & _).
  pose proof (step_success_line [] id _ Hid) as Hclose.
  cbn [app] in Hclose.
  exists (ToNext (Some (invoke_line id depth))
            :: t1 ++ (ToNext (Some (success_line id)) :: [Pop])
                 ++ t2 ++ [ToNext None]).
  exists (1 :: map (fun e => List.length (stack e))
                 (states {| stack := [id] |} inner)).
  exists (map (fun e => List.length (stack e)) (states {| stack := [] |} more)).
  unfold closed_log, invoke_line in *.
  repeat split.
  - rewrite (parse_logs_execution_app _ _ _ _ Hinit), Hrounds1, bind_ok.
    rewrite (scan_step _ _ _ _ _ Hclose), scan_rounds, Hrounds2, bind_ok.
    reflexivity.
  - simpl. rewrite !pushes_app, !pops_app; simpl.
    rewrite !pushes_app, !pops_app; simpl. lia.
  - unfold stack_depths; rewrite Hinit.
    rewrite (states_app _ _ _ _ _ Hrounds1); cbn [states]; rewrite Hclose.
    cbn [map]; rewrite map_app; reflexivity.
  - cbn [List.length]; rewrite length_map.
    rewrite (states_length _ _ _ _ Hrounds1); reflexivity.
  - constructor; [lia|].
    apply Forall_map. eapply Forall_impl; [|exact Hdepths1].
    intros e He; exact He.
  - rewrite length_map; apply (states_length _ _ _ _ Hrounds2).
Qed.

End Parser.

(** * The two example logs, with [A] as the target *)

(** C1, at its example: the line of [B] is pushed as [cpi]; the [msg!]
    line that follows is met with [cpi] on top and given to
    [handle_system_log], so that neither [b64decode] nor the coder is
    called and no event is delivered; but [Program log] has no second
    token, and [parse_logs] raises [IndexError] there instead of
    completing. *)
Theorem cross_talk_example_aborts (Event : Type)
  (b64decode : string -> result bytes) (events_parse : bytes -> option Event)
  (payload : string) :
  parse_logs Event b64decode events_parse "A"
    ["Program A invoke [1]"; "Program B invoke [2]";
     ("Program log: " ++ payload)%string;
     "Program B success"; "Program A success"]
  = ([ToNext (Some "Program A invoke [1]");
      ToNext (Some "Program B invoke [2]"); Push "cpi";
      ToNext (Some ("Program log: " ++ payload)%string)],
     Raise IndexError).
Proof.
  unfold parse_logs.
  rewrite parse_logs_execution_cons.
  change (ExecutionContext_init (Some "Program A invoke [1]"))
    with (Ok {| stack := ["A"] |}).
  unfold lift; rewrite bind_ok, prefixed_nil.
  rewrite (scan_step _ _ _ _ {| stack := ["A"] |} {| stack := ["A"; "cpi"] |}
             "Program B invoke [2]" [Push "cpi"]) by reflexivity.
  rewrite scan_msg_off_target by reflexivity.
  reflexivity.
Qed.

(** C2: the line of [C] is pushed as [cpi] and [Program C success] pops
    it, which leaves [A] on top; the [msg!] line is then decoded, its
    event is handed to the callback, once, and the scan completes. *)
Theorem nested_round_trip (Event : Type)
  (b64decode : string -> result bytes) (events_parse : bytes -> option Event)
  (payload : string) (decoded : bytes) (e : Event) :
  b64decode payload = Ok decoded ->
  events_parse decoded = Some e ->
  rounds Event b64decode events_parse "A" {| stack := ["A"] |}
    ["Program C invoke [2]"; "Program C success"]
  = ([ToNext (Some "Program C invoke [2]"); Push "cpi";
      ToNext (Some "Program C success"); Pop],
     Ok {| stack := ["A"] |})
  /\ parse_logs Event b64decode events_parse "A"
       ["Program A invoke [1]"; "Program C invoke [2]"; "Program C success";
        ("Program log: " ++ payload)%string; "Program A success"]
     = ([ToNext (Some "Program A invoke [1]");
         ToNext (Some "Program C invoke [2]"); Push "cpi";
         ToNext (Some "Program C success"); Pop;
         ToNext (Some ("Program log: " ++ payload)%string);
         B64decode payload; EventsParse decoded; Callback e;
         ToNext (Some "Program A success"); Pop;
         ToNext None],
        Ok tt)
  /\ callbacks
       (fst (parse_logs Event b64decode events_parse "A"
               ["Program A invoke [1]"; "Program C invoke [2]";
                "Program C success";
                ("Program log: " ++ payload)%string; "Program A success"]))
     = [e].
Proof.
  intros Hb64 Hparse.
  split; [reflexivity|].
  assert (H : parse_logs Event b64decode events_parse "A"
                ["Program A invoke [1]"; "Program C invoke [2]";
                 "Program C success";
                 ("Program log: " ++ payload)%string; "Program A success"]
              = ([ToNext (Some "Program A invoke [1]");
                  ToNext (Some "Program C invoke [2]"); Push "cpi";
                  ToNext (Some "Program C success"); Pop;
                  ToNext (Some ("Program log: " ++ payload)%string);
                  B64decode payload; EventsParse decoded; Callback e;
                  ToNext (Some "Program A success"); Pop;
                  ToNext None],
                 Ok tt)).
  { unfold parse_logs.
    rewrite parse_logs_execution_cons.
    change (ExecutionContext_init (Some "Program A invoke [1]"))
      with (Ok {| stack := ["A"] |}).
    unfold lift; rewrite bind_ok, prefixed_nil.
    rewrite (scan_step _ _ _ _ {| stack := ["A"] |} {| stack := ["A"; "cpi"] |}
               "Program C invoke [2]" [Push "cpi"]) by reflexivity.
    rewrite (scan_step _ _ _ _ {| stack := ["A"; "cpi"] |} {| stack := ["A"] |}
               "Program C success" [Pop]) by reflexivity.
    rewrite (scan_step _ _ _ _ {| stack := ["A"] |} {| stack := ["A"] |}
               ("Program log: " ++ payload)%string
               [B64decode payload; EventsParse decoded; Callback e])
      by (apply (step_event _ _ _ _ {| stack := ["A"] |}
                   ("Program log: " ++ payload)%string decoded e);
          [reflexivity|reflexivity|exact Hb64|exact Hparse]).
    rewrite (scan_step _ _ _ _ {| stack := ["A"] |} {| stack := [] |}
               "Program A success" [Pop]) by reflexivity.
    reflexivity. }
  split; [exact H|].
  rewrite H; reflexivity.
Qed.

(** * Concrete runs

    The statements above, applied to logs of a target [A] with the
    collaborators of [Demo]. *)

Lemma nested_round_trip_witness :
  Demo.b64decode "AQID" = Ok [x01; x02; x03]
  /\ Demo.events_parse [x01; x02; x03] = Some [x02; x03]
  /\ parse_logs Demo.Event Demo.b64decode Demo.events_parse "A"
       ["Program A invoke [1]"; "Program C invoke [2]"; "Program C success";
        "Program log: AQID"; "Program A success"]
     = ([ToNext (Some "Program A invoke [1]");
         ToNext (Some "Program C invoke [2]"); Push "cpi";
         ToNext (Some "Program C success"); Pop;
         ToNext (Some "Program log: AQID");
         B64decode "AQID"; EventsParse [x01; x02; x03]; Callback [x02; x03];
         ToNext (Some "Program A success"); Pop;
         ToNext None],
        Ok tt).
Proof.
  split; [reflexivity|split; [reflexivity|]].
  apply (nested_round_trip Demo.Event Demo.b64decode Demo.events_parse
           "AQID" [x01; x02; x03] [x02; x03]); reflexivity.
Defined.

Lemma undecodable_payload_tolerated_witness :
  target_on_top "A" {| stack := ["A"] |} = true
  /\ Str.startswith "Program log: not-base64!!" "Program log:" = true
  /\ Demo.b64decode (Str.slice_from LOG_START_INDEX "Program log: not-base64!!")
     = Raise BinasciiError
  /\ scan Demo.Event Demo.b64decode Demo.events_parse "A" {| stack := ["A"] |}
       ["Program log: not-base64!!"; "Program log: AQID"]
     = prefixed [ToNext (Some "Program log: not-base64!!");
                 B64decode "not-base64!!"]
         (scan Demo.Event Demo.b64decode Demo.events_parse "A"
            {| stack := ["A"] |} ["Program log: AQID"]).
Proof.
  split; [reflexivity|split; [reflexivity|split; [reflexivity|]]].
  apply (undecodable_payload_tolerated Demo.Event Demo.b64decode
           Demo.events_parse "A" {| stack := ["A"] |}
           "Program log: not-base64!!" ["Program log: AQID"]); reflexivity.
Defined.

Lemma success_token_pops_witness :
  authored "A" {| stack := ["A"; "cpi"] |} "Program B success" = false
  /\ getitem (Str.split "Program B success" ":") 0 = Ok "Program B success"
  /\ getitem (Str.split "Program B success" "Program ") 1 = Ok "B success"
  /\ getitem (Str.split "B success" " ") 1 = Ok "success"
  /\ step Demo.Event Demo.b64decode Demo.events_parse "A"
       {| stack := ["A"; "cpi"] |} "Program B success"
     = ([Pop], Ok {| stack := ["A"] |}).
Proof.
  repeat (split; [reflexivity|]).
  apply (success_token_pops Demo.Event Demo.b64decode Demo.events_parse "A"
           {| stack := ["A"; "cpi"] |} "Program B success"
           "Program B success" "B success");
    reflexivity.
Defined.

Lemma malformed_line_fatal_witness :
  ExecutionContext_init (Some "Program A invoke [1]") = Ok {| stack := ["A"] |}
  /\ rounds Demo.Event Demo.b64decode Demo.events_parse "A"
       {| stack := ["A"] |} ["Program log: AQID"]
     = ([ToNext (Some "Program log: AQID"); B64decode "AQID";
         EventsParse [x01; x02; x03]; Callback [x02; x03]],
        Ok {| stack := ["A"] |})
  /\ authored "A" {| stack := ["A"] |} "hello" = false
  /\ getitem (Str.split "hello" ":") 0 = Ok "hello"
  /\ Str.contains "Program " "hello" = false
  /\ parse_logs Demo.Event Demo.b64decode Demo.events_parse "A"
       ["Program A invoke [1]"; "Program log: AQID"; "hello";
        "Program A success"]
     = ([ToNext (Some "Program A invoke [1]");
         ToNext (Some "Program log: AQID"); B64decode "AQID";
         EventsParse [x01; x02; x03]; Callback [x02; x03];
         ToNext (Some "hello")],
        Raise IndexError).
Proof.
  repeat (split; [reflexivity|]).
  apply (malformed_line_fatal Demo.Event Demo.b64decode Demo.events_parse "A"
           "Program A invoke [1]" ["Program log: AQID"] "hello"
           ["Program A success"] {| stack := ["A"] |} {| stack := ["A"] |}
           [ToNext (Some "Program log: AQID"); B64decode "AQID";
            EventsParse [x01; x02; x03]; Callback [x02; x03]]
           "hello");
    solve [reflexivity | left; reflexivity].
Defined.

Lemma undecodable_payload_not_tolerated_witness :
  ExecutionContext_init (Some "Program A invoke [1]") = Ok {| stack := ["A"] |}
  /\ rounds Demo.Event Demo.b64decode Demo.events_parse "A"
       {| stack := ["A"] |} ["Program log: AQID"]
     = ([ToNext (Some "Program log: AQID"); B64decode "AQID";
         EventsParse [x01; x02; x03]; Callback [x02; x03]],
        Ok {| stack := ["A"] |})
  /\ target_on_top "A" {| stack := ["A"] |} = true
  /\ Str.startswith ("Program log: " ++ Demo.e_acute) "Program log:" = true
  /\ Demo.b64decode
       (Str.slice_from LOG_START_INDEX ("Program log: " ++ Demo.e_acute))
     = Raise ValueError
  /\ parse_logs Demo.Event Demo.b64decode Demo.events_parse "A"
       ["Program A invoke [1]"; "Program log: AQID";
        ("Program log: " ++ Demo.e_acute)%string; "Program log: AQID";
        "Program A success"]
     = ([ToNext (Some "Program A invoke [1]");
         ToNext (Some "Program log: AQID"); B64decode "AQID";
         EventsParse [x01; x02; x03]; Callback [x02; x03];
         ToNext (Some ("Program log: " ++ Demo.e_acute)%string);
         B64decode Demo.e_acute],
        Raise ValueError)
  /\ callbacks
       (fst (parse_logs Demo.Event Demo.b64decode Demo.events_parse "A"
               ["Program A invoke [1]"; "Program log: AQID";
                ("Program log: " ++ Demo.e_acute)%string; "Program log: AQID";
                "Program A success"]))
     = [[x02; x03]].
Proof.
  repeat (split; [reflexivity|]).
  apply (undecodable_payload_not_tolerated Demo.Event Demo.b64decode
           Demo.events_parse "A"
           "Program A invoke [1]" ["Program log: AQID"]
           ("Program log: " ++ Demo.e_acute)
           ["Program log: AQID"; "Program A success"]
           {| stack := ["A"] |} {| stack := ["A"] |}
           [ToNext (Some "Program log: AQID"); B64decode "AQID";
            EventsParse [x01; x02; x03]; Callback [x02; x03]]
           ValueError);
    solve [reflexivity | discriminate].
Defined.

(** The first line [hello world] is refused before the second is read. *)
Example first_line_hello_world :
  parse_logs Demo.Event Demo.b64decode Demo.events_parse "A"
    ["hello world"; "Program log: AQID"]
  = ([ToNext (Some "hello world")], Raise ValueError).
Proof. reflexivity. Qed.

(** Two events of the target, handed over in the order of their lines. *)
Example two_events_in_order :
  callbacks
    (fst (parse_logs Demo.Event Demo.b64decode Demo.events_parse "A"
            ["Program A invoke [1]"; "Program log: AQID"; "Program log: AQ==";
             "Program A success"]))
  = [[x02; x03]; []].
Proof. reflexivity. Qed.

(** * Concrete runs of the further properties

    The target is [Fg6PaFpo], the other program [11111111]. *)

Lemma init_seeds_identifier_witness :
  Str.contains " " "Fg6PaFpo" = false
  /\ Str.contains "Program " ("Fg6PaFpo" ++ " invoke [" ++ "1]") = false
  /\ ExecutionContext_init (Some "Program Fg6PaFpo invoke [1]")
     = Ok {| stack := ["Fg6PaFpo"] |}.
Proof.
  split; [reflexivity|split; [reflexivity|]].
  apply (init_seeds_identifier "Fg6PaFpo" "1]"); reflexivity.
Defined.

Lemma seeded_identifier_clean_witness :
  ExecutionContext_init (Some "Program Fg6PaFpo consumed 5 of 9 units")
  = Ok {| stack := ["Fg6PaFpo consumed 5 of 9 units"] |}
  /\ exists p,
       {| stack := ["Fg6PaFpo consumed 5 of 9 units"] |} = {| stack := [p] |}
       /\ Str.contains "Program " p = false
       /\ Str.contains " invoke [" p = false.
Proof.
  split; [reflexivity|].
  apply (seeded_identifier_clean "Program Fg6PaFpo consumed 5 of 9 units");
    reflexivity.
Defined.

Lemma depth_counts_pushes_and_pops_witness :
  parse_logs_execution Demo.Event Demo.b64decode Demo.events_parse "Fg6PaFpo"
    ["Program Fg6PaFpo invoke [1]"; "Program 11111111 invoke [2]";
     "Program Fg6PaFpo invoke [3]"; "Program Fg6PaFpo success"]
  = ([ToNext (Some "Program Fg6PaFpo invoke [1]");
      ToNext (Some "Program 11111111 invoke [2]"); Push "cpi";
      ToNext (Some "Program Fg6PaFpo invoke [3]"); Push "Fg6PaFpo";
      ToNext (Some "Program Fg6PaFpo success"); Pop;
      ToNext None],
     Ok {| stack := ["Fg6PaFpo"; "cpi"] |})
  /\ List.length ["Fg6PaFpo"; "cpi"] + 1 = 1 + 2.
Proof.
  split; [reflexivity|].
  apply (depth_counts_pushes_and_pops Demo.Event Demo.b64decode
           Demo.events_parse "Fg6PaFpo"
           ["Program Fg6PaFpo invoke [1]"; "Program 11111111 invoke [2]";
            "Program Fg6PaFpo invoke [3]"; "Program Fg6PaFpo success"]
           [ToNext (Some "Program Fg6PaFpo invoke [1]");
            ToNext (Some "Program 11111111 invoke [2]"); Push "cpi";
            ToNext (Some "Program Fg6PaFpo invoke [3]"); Push "Fg6PaFpo";
            ToNext (Some "Program Fg6PaFpo success"); Pop;
            ToNext None]
           {| stack := ["Fg6PaFpo"; "cpi"] |});
    reflexivity.
Defined.

Lemma delivered_event_origin_witness :
  In [x02; x03]
    (callbacks
       (fst (parse_logs Demo.Event Demo.b64decode Demo.events_parse "Fg6PaFpo"
               ["Program Fg6PaFpo invoke [1]"; "Program log: AQID";
                "Program Fg6PaFpo success"])))
  /\ exists (first : string) (pre : list string) (log : string)
            (post : list string) (execution0 execution : ExecutionContext)
            (t : list (obs Demo.Event)) (decoded : bytes),
       ["Program Fg6PaFpo invoke [1]"; "Program log: AQID";
        "Program Fg6PaFpo success"] = first :: pre ++ log :: post
       /\ ExecutionContext_init (Some first) = Ok execution0
       /\ rounds Demo.Event Demo.b64decode Demo.events_parse "Fg6PaFpo"
            execution0 pre = (t, Ok execution)
       /\ target_on_top "Fg6PaFpo" execution = true
       /\ Str.startswith log "Program log:" = true
       /\ Demo.b64decode (Str.slice_from LOG_START_INDEX log) = Ok decoded
       /\ Demo.events_parse decoded = Some [x02; x03].
Proof.
  assert (H : In [x02; x03]
                (callbacks
                   (fst (parse_logs Demo.Event Demo.b64decode
                           Demo.events_parse "Fg6PaFpo"
                           ["Program Fg6PaFpo invoke [1]"; "Program log: AQID";
                            "Program Fg6PaFpo success"]))))
    by (left; reflexivity).
  split; [exact H|].
  exact (delivered_event_origin Demo.Event Demo.b64decode Demo.events_parse
           "Fg6PaFpo" _ _ H).
Defined.

Lemma pop_on_empty_stack_raises_witness :
  ExecutionContext_init (Some "Program Fg6PaFpo invoke [1]")
  = Ok {| stack := ["Fg6PaFpo"] |}
  /\ rounds Demo.Event Demo.b64decode Demo.events_parse "Fg6PaFpo"
       {| stack := ["Fg6PaFpo"] |} ["Program Fg6PaFpo success"]
     = ([ToNext (Some "Program Fg6PaFpo success"); Pop], Ok {| stack := [] |})
  /\ handle_system_log "Fg6PaFpo" "Program 11111111 success" = Ok (None, true)
  /\ parse_logs Demo.Event Demo.b64decode Demo.events_parse "Fg6PaFpo"
       ["Program Fg6PaFpo invoke [1]"; "Program Fg6PaFpo success";
        "Program 11111111 success"; "Program log: AQID"]
     = ([ToNext (Some "Program Fg6PaFpo invoke [1]");
         ToNext (Some "Program Fg6PaFpo success"); Pop;
         ToNext (Some "Program 11111111 success")],
        Raise IndexError).
Proof.
  repeat (split; [reflexivity|]).
  apply (pop_on_empty_stack_raises Demo.Event Demo.b64decode Demo.events_parse
           "Fg6PaFpo" "Program Fg6PaFpo invoke [1]"
           ["Program Fg6PaFpo success"] "Program 11111111 success"
           ["Program log: AQID"] {| stack := ["Fg6PaFpo"] |}
           {| stack := [] |}
           [ToNext (Some "Program Fg6PaFpo success"); Pop]);
    reflexivity.
Defined.

Lemma invoke_line_pushes_witness :
  Str.contains " " "11111111" = false
  /\ Str.contains " " "Fg6PaFpo" = false
  /\ Str.contains ":" ("11111111" ++ " invoke [" ++ "2]") = false
  /\ Str.contains "Program " ("11111111" ++ " invoke [" ++ "2]") = false
  /\ step Demo.Event Demo.b64decode Demo.events_parse "Fg6PaFpo"
       {| stack := ["Fg6PaFpo"] |} "Program 11111111 invoke [2]"
     = ([Push "cpi"], Ok {| stack := ["Fg6PaFpo"; "cpi"] |}).
Proof.
  repeat (split; [reflexivity|]).
  apply (invoke_line_pushes Demo.Event Demo.b64decode Demo.events_parse
           "Fg6PaFpo" {| stack := ["Fg6PaFpo"] |} "11111111" "2]");
    reflexivity.
Defined.

Lemma success_line_pops_witness :
  Str.contains " " "11111111" = false
  /\ Str.contains ":" "11111111" = false
  /\ Str.contains "Program " ("11111111" ++ " success") = false
  /\ step Demo.Event Demo.b64decode Demo.events_parse "Fg6PaFpo"
       {| stack := ["Fg6PaFpo"] |} "Program 11111111 success"
     = pop Demo.Event {| stack := ["Fg6PaFpo"] |}.
Proof.
  repeat (split; [reflexivity|]).
  apply (success_line_pops Demo.Event Demo.b64decode Demo.events_parse
           "Fg6PaFpo" {| stack := ["Fg6PaFpo"] |} "11111111");
    reflexivity.
Defined.

Lemma failed_line_leaves_stack_witness :
  Str.contains " " "11111111" = false
  /\ Str.contains ":" "11111111" = false
  /\ Str.contains "Program " ("11111111" ++ " failed") = false
  /\ Str.contains "invoke" ("11111111" ++ " failed") = false
  /\ step Demo.Event Demo.b64decode Demo.events_parse "Fg6PaFpo"
       {| stack := ["Fg6PaFpo"; "cpi"] |}
       "Program 11111111 failed: custom program error: 0x1"
     = ([], Ok {| stack := ["Fg6PaFpo"; "cpi"] |}).
Proof.
  repeat (split; [reflexivity|]).
  apply (failed_line_leaves_stack Demo.Event Demo.b64decode Demo.events_parse
           "Fg6PaFpo" {| stack := ["Fg6PaFpo"; "cpi"] |} "11111111"
           "custom program error: 0x1");
    reflexivity.
Defined.

Lemma raise_is_final_witness :
  parse_logs Demo.Event Demo.b64decode Demo.events_parse "Fg6PaFpo"
    ["Program Fg6PaFpo invoke [1]"; "Log truncated"]
  = ([ToNext (Some "Program Fg6PaFpo invoke [1]");
      ToNext (Some "Log truncated")], Raise IndexError)
  /\ parse_logs Demo.Event Demo.b64decode Demo.events_parse "Fg6PaFpo"
       ["Program Fg6PaFpo invoke [1]"; "Log truncated";
        "Program log: AQID"; "Program Fg6PaFpo success"]
     = ([ToNext (Some "Program Fg6PaFpo invoke [1]");
         ToNext (Some "Log truncated")], Raise IndexError).
Proof.
  split; [reflexivity|].
  apply (raise_is_final Demo.Event Demo.b64decode Demo.events_parse "Fg6PaFpo"
           "Program Fg6PaFpo invoke [1]" ["Log truncated"]
           ["Program log: AQID"; "Program Fg6PaFpo success"]);
    reflexivity.
Defined.

Lemma target_msg_leaves_stack_witness :
  authored "Fg6PaFpo" {| stack := ["Fg6PaFpo"] |}
    "Program log: Program 11111111 success" = true
  /\ step Demo.Event Demo.b64decode Demo.events_parse "Fg6PaFpo"
       {| stack := ["Fg6PaFpo"] |} "Program log: Program 11111111 success"
     = ([B64decode "Program 11111111 success"], Ok {| stack := ["Fg6PaFpo"] |})
  /\ {| stack := ["Fg6PaFpo"] |} = {| stack := ["Fg6PaFpo"] |}
  /\ pushes (@cons (obs Demo.Event) (B64decode "Program 11111111 success") nil) = 0
  /\ pops (@cons (obs Demo.Event) (B64decode "Program 11111111 success") nil) = 0.
Proof.
  split; [reflexivity|split; [reflexivity|]].
  apply (target_msg_leaves_stack Demo.Event Demo.b64decode Demo.events_parse
           "Fg6PaFpo" {| stack := ["Fg6PaFpo"] |} {| stack := ["Fg6PaFpo"] |}
           "Program log: Program 11111111 success"
           [B64decode "Program 11111111 success"]);
    reflexivity.
Defined.

Lemma scan_extends_witness :
  parse_logs_execution Demo.Event Demo.b64decode Demo.events_parse "Fg6PaFpo"
    ["Program Fg6PaFpo invoke [1]"; "Program log: AQID"]
  = ([ToNext (Some "Program Fg6PaFpo invoke [1]");
      ToNext (Some "Program log: AQID"); B64decode "AQID";
      EventsParse [x01; x02; x03]; Callback [x02; x03]; ToNext None],
     Ok {| stack := ["Fg6PaFpo"] |})
  /\ exists t',
       [ToNext (Some "Program Fg6PaFpo invoke [1]");
        ToNext (Some "Program log: AQID"); B64decode "AQID";
        EventsParse [x01; x02; x03]; Callback [x02; x03]; ToNext None]
       = t' ++ [ToNext None]
       /\ parse_logs_execution Demo.Event Demo.b64decode Demo.events_parse
            "Fg6PaFpo"
            (["Program Fg6PaFpo invoke [1]"; "Program log: AQID"]
               ++ ["Program log: AQ=="; "Program Fg6PaFpo success"])
          = prefixed t'
              (scan Demo.Event Demo.b64decode Demo.events_parse "Fg6PaFpo"
                 {| stack := ["Fg6PaFpo"] |}
                 ["Program log: AQ=="; "Program Fg6PaFpo success"])
       /\ callbacks
            (fst (parse_logs Demo.Event Demo.b64decode Demo.events_parse
                    "Fg6PaFpo"
                    (["Program Fg6PaFpo invoke [1]"; "Program log: AQID"]
                       ++ ["Program log: AQ=="; "Program Fg6PaFpo success"])))
          = callbacks
              (fst (parse_logs Demo.Event Demo.b64decode Demo.events_parse
                      "Fg6PaFpo"
                      ["Program Fg6PaFpo invoke [1]"; "Program log: AQID"]))
            ++ callbacks
                 (fst (scan Demo.Event Demo.b64decode Demo.events_parse
                         "Fg6PaFpo" {| stack := ["Fg6PaFpo"] |}
                         ["Program log: AQ=="; "Program Fg6PaFpo success"])).
Proof.
  split; [reflexivity|].
  apply (scan_extends Demo.Event Demo.b64decode Demo.events_parse "Fg6PaFpo"
           "Program Fg6PaFpo invoke [1]" ["Program log: AQID"]
           ["Program log: AQ=="; "Program Fg6PaFpo success"]);
    reflexivity.
Defined.

Lemma cpi_round_trip_witness :
  plain_identifier "Fg6PaFpo"
  /\ plain_identifier "11111111"
  /\ "11111111" <> "Fg6PaFpo"
  /\ Demo.b64decode "AQID" = Ok [x01; x02; x03]
  /\ Demo.events_parse [x01; x02; x03] = Some [x02; x03]
  /\ callbacks
       (fst (parse_logs Demo.Event Demo.b64decode Demo.events_parse "Fg6PaFpo"
               ["Program Fg6PaFpo invoke [1]"; "Program 11111111 invoke [2]";
                "Program 11111111 success"; "Program log: AQID";
                "Program Fg6PaFpo success"]))
     = [[x02; x03]]
  /\ snd (parse_logs Demo.Event Demo.b64decode Demo.events_parse "Fg6PaFpo"
            ["Program Fg6PaFpo invoke [1]"; "Program 11111111 invoke [2]";
             "Program 11111111 success"; "Program log: AQID";
             "Program Fg6PaFpo success"])
     = Ok tt.
Proof.
  assert (Hp : plain_identifier "Fg6PaFpo") by (repeat split; reflexivity).
  assert (Ho : plain_identifier "11111111") by (repeat split; reflexivity).
  assert (Hn : "11111111" <> "Fg6PaFpo") by discriminate.
  pose proof (cpi_round_trip Demo.Event Demo.b64decode Demo.events_parse
                "Fg6PaFpo" "11111111" "AQID" [x01; x02; x03] [x02; x03]
                Hp Ho Hn eq_refl eq_refl) as H.
  split; [exact Hp|split; [exact Ho|split; [exact Hn|]]].
  split; [reflexivity|split; [reflexivity|]].
  split; [exact (f_equal (fun m => callbacks (fst m)) H)
         |exact (f_equal snd H)].
Defined.

Lemma character_after_colon_dropped_witness :
  target_on_top "Fg6PaFpo" {| stack := ["Fg6PaFpo"] |} = true
  /\ Demo.b64decode "AQID" = Ok [x01; x02; x03]
  /\ Demo.events_parse [x01; x02; x03] = Some [x02; x03]
  /\ step Demo.Event Demo.b64decode Demo.events_parse "Fg6PaFpo"
       {| stack := ["Fg6PaFpo"] |} "Program log:#AQID"
     = ([B64decode "AQID"; EventsParse [x01; x02; x03]; Callback [x02; x03]],
        Ok {| stack := ["Fg6PaFpo"] |}).
Proof.
  repeat (split; [reflexivity|]).
  apply (character_after_colon_dropped Demo.Event Demo.b64decode
           Demo.events_parse "Fg6PaFpo" {| stack := ["Fg6PaFpo"] |}
           "#" "AQID" [x01; x02; x03] [x02; x03]);
    reflexivity.
Defined.

Lemma text_after_colon_ignored_witness :
  Str.contains ":" "Program 11111111 failed" = false
  /\ handle_system_log "Fg6PaFpo"
       "Program 11111111 failed: Program 11111111 success"
     = handle_system_log "Fg6PaFpo" "Program 11111111 failed: invoke [1]".
Proof.
  split; [reflexivity|].
  apply (text_after_colon_ignored "Fg6PaFpo" "Program 11111111 failed"
           " Program 11111111 success" " invoke [1]");
    reflexivity.
Defined.

Lemma off_target_nothing_decoded_witness :
  target_on_top "Fg6PaFpo" {| stack := ["Fg6PaFpo"; "cpi"] |} = false
  /\ fst (handle_log Demo.Event Demo.b64decode Demo.events_parse "Fg6PaFpo"
            {| stack := ["Fg6PaFpo"; "cpi"] |} "Program log: AQID") = []
  /\ callbacks
       (fst (step Demo.Event Demo.b64decode Demo.events_parse "Fg6PaFpo"
               {| stack := ["Fg6PaFpo"; "cpi"] |} "Program log: AQID")) = [].
Proof.
  split; [reflexivity|].
  pose proof (off_target_nothing_decoded Demo.Event Demo.b64decode
                Demo.events_parse "Fg6PaFpo"
                {| stack := ["Fg6PaFpo"; "cpi"] |} "Program log: AQID"
                eq_refl) as (H1 & _ & H3 & _).
  split; [exact H1|exact H3].
Defined.

Lemma single_word_line_raises_witness :
  Str.contains " " "data" = false
  /\ Str.contains ":" "data" = false
  /\ Str.contains "Program " "data" = false
  /\ authored "Fg6PaFpo" {| stack := ["Fg6PaFpo"] |} "Program data: AQID"
     = false
  /\ step Demo.Event Demo.b64decode Demo.events_parse "Fg6PaFpo"
       {| stack := ["Fg6PaFpo"] |} "Program data: AQID"
     = ([], Raise IndexError).
Proof.
  repeat (split; [reflexivity|]).
  apply (single_word_line_raises Demo.Event Demo.b64decode Demo.events_parse
           "Fg6PaFpo" {| stack := ["Fg6PaFpo"] |} "data" " AQID");
    reflexivity.
Defined.


(** * Concrete runs of delivery, popping and balance

    The target is [A]; [B] and [Z] are other programs. *)

Lemma synchronous_in_order_delivery_witness :
  ExecutionContext_init (Some "Program A invoke [1]") = Ok {| stack := ["A"] |}
  /\ rounds Demo.Event Demo.b64decode Demo.events_parse "A"
       {| stack := ["A"] |} ["Program B invoke [2]"; "Program B success"]
     = ([ToNext (Some "Program B invoke [2]"); Push "cpi";
         ToNext (Some "Program B success"); Pop],
        Ok {| stack := ["A"] |})
  /\ target_on_top "A" {| stack := ["A"] |} = true
  /\ Str.startswith "Program log: AQID" "Program log:" = true
  /\ Demo.b64decode (Str.slice_from LOG_START_INDEX "Program log: AQID")
     = Ok [x01; x02; x03]
  /\ Demo.events_parse [x01; x02; x03] = Some [x02; x03]
  /\ fst (parse_logs Demo.Event Demo.b64decode Demo.events_parse "A"
            ["Program A invoke [1]"; "Program B invoke [2]";
             "Program B success"; "Program log: AQID"; "Program log: AQ==";
             "Program A success"])
     = (ToNext (Some "Program A invoke [1]")
          :: [ToNext (Some "Program B invoke [2]"); Push "cpi";
              ToNext (Some "Program B success"); Pop])
       ++ [ToNext (Some "Program log: AQID");
           B64decode (Str.slice_from LOG_START_INDEX "Program log: AQID");
           EventsParse [x01; x02; x03]; Callback [x02; x03]]
       ++ fst (scan Demo.Event Demo.b64decode Demo.events_parse "A"
                 {| stack := ["A"] |}
                 ["Program log: AQ=="; "Program A success"])
  /\ callbacks
       (fst (parse_logs Demo.Event Demo.b64decode Demo.events_parse "A"
               ["Program A invoke [1]"; "Program B invoke [2]";
                "Program B success"; "Program log: AQID"; "Program log: AQ==";
                "Program A success"]))
     = callbacks
         [ToNext (Some "Program B invoke [2]"); Push "cpi";
          ToNext (Some "Program B success"); Pop]
       ++ [x02; x03]
          :: callbacks
               (fst (scan Demo.Event Demo.b64decode Demo.events_parse "A"
                       {| stack := ["A"] |}
                       ["Program log: AQ=="; "Program A success"])).
Proof.
  do 6 (split; [reflexivity|]).
  exact (proj2 (proj2 (proj2 (proj2
           (synchronous_in_order_delivery Demo.Event Demo.b64decode
              Demo.events_parse "A"
              ["Program A invoke [1]"; "Program B invoke [2]";
               "Program B success"; "Program log: AQID"; "Program log: AQ==";
               "Program A success"]))))
           "Program A invoke [1]"
           ["Program B invoke [2]"; "Program B success"]
           "Program log: AQID"
           ["Program log: AQ=="; "Program A success"]
           {| stack := ["A"] |} {| stack := ["A"] |}
           [ToNext (Some "Program B invoke [2]"); Push "cpi";
            ToNext (Some "Program B success"); Pop]
           [x01; x02; x03] [x02; x03]
           eq_refl eq_refl eq_refl eq_refl eq_refl eq_refl eq_refl).
Defined.

(** The events of the run above are those the lines are to deliver. *)
Example expected_callbacks_two_events :
  expected_callbacks Demo.Event Demo.b64decode Demo.events_parse "A"
    ["Program A invoke [1]"; "Program B invoke [2]"; "Program B success";
     "Program log: AQID"; "Program log: AQ=="; "Program A success"]
  = [[x02; x03]; []].
Proof. reflexivity. Qed.

Lemma pop_is_identifier_blind_witness :
  handle_log Demo.Event Demo.b64decode Demo.events_parse "A"
    {| stack := ["A"; "cpi"] |} "Program Z success"
  = ([], Ok (None, None, true))
  /\ scan Demo.Event Demo.b64decode Demo.events_parse "A"
       {| stack := ["A"; "A"] |} ["Program Z success"]
     = prefixed [ToNext (Some "Program Z success"); Pop]
         (scan Demo.Event Demo.b64decode Demo.events_parse "A"
            {| stack := ["A"] |} [])
  /\ scan Demo.Event Demo.b64decode Demo.events_parse "A"
       {| stack := ["A"] |} ["Program B invoke [2]"; "Program Z success"]
     = prefixed [ToNext (Some "Program B invoke [2]"); Push "cpi";
                 ToNext (Some "Program Z success"); Pop]
         (scan Demo.Event Demo.b64decode Demo.events_parse "A"
            {| stack := ["A"] |} []).
Proof.
  split; [reflexivity|].
  pose proof (pop_is_identifier_blind Demo.Event Demo.b64decode
                Demo.events_parse "A" {| stack := ["A"; "cpi"] |}
                "Program Z success" [] None None eq_refl) as H.
  split.
  - exact (proj1 (proj2 H) ["A"] "A" []).
  - apply (proj2 (proj2 (proj2 H)) "B" "2]" ["A"] []).
    + reflexivity.
    + repeat split; reflexivity.
    + split; reflexivity.
    + discriminate.
Defined.

Lemma closed_input_balance_witness :
  Str.contains " " "A" = false
  /\ well_formed Demo.b64decode "A" "A" "1]"
       ["Program B invoke [2]"; "Program B consumed 5 of 9 units";
        "Program B success"; "Program log: AQID"; "Program log: not-base64!!"]
       ["Program B invoke [1]"; "Program B success"]
  /\ exists (t : list (obs Demo.Event)) (before after : list nat),
       parse_logs_execution Demo.Event Demo.b64decode Demo.events_parse "A"
         (closed_log "A" "1]"
            ["Program B invoke [2]"; "Program B consumed 5 of 9 units";
             "Program B success"; "Program log: AQID";
             "Program log: not-base64!!"]
            ["Program B invoke [1]"; "Program B success"])
       = (t, Ok {| stack := [] |})
       /\ pops t = S (pushes t)
       /\ stack_depths Demo.Event Demo.b64decode Demo.events_parse "A"
            (closed_log "A" "1]"
               ["Program B invoke [2]"; "Program B consumed 5 of 9 units";
                "Program B success"; "Program log: AQID";
                "Program log: not-base64!!"]
               ["Program B invoke [1]"; "Program B success"])
          = before ++ 0 :: after
       /\ List.length before = 6
       /\ Forall (fun d => 1 <= d) before
       /\ List.length after = 2.
Proof.
  assert (H : well_formed Demo.b64decode "A" "A" "1]"
                ["Program B invoke [2]"; "Program B consumed 5 of 9 units";
                 "Program B success"; "Program log: AQID";
                 "Program log: not-base64!!"]
                ["Program B invoke [1]"; "Program B success"]).
  { split; [repeat split; reflexivity|].
    split; [split; reflexivity|].
    split.
    - refine (body_call Demo.b64decode "A" (Some "A") "B" "2]"
                ["Program B consumed 5 of 9 units"]
                ["Program log: AQID"; "Program log: not-base64!!"]
                _ _ _ _).
      + repeat split; reflexivity.
      + split; reflexivity.
      + apply body_quiet; [|apply body_nil].
        refine (quiet_word Demo.b64decode "A" (Some "B")
                  "B" "consumed" "5 of 9 units"
                  eq_refl eq_refl eq_refl eq_refl eq_refl _).
        discriminate.
      + apply body_quiet; [|apply body_quiet; [|apply body_nil]].
        * apply quiet_msg; [reflexivity|reflexivity|].
          intros e E; vm_compute in E; discriminate.
        * apply quiet_msg; [reflexivity|reflexivity|].
          intros e E; vm_compute in E; injection E as <-; reflexivity.
    - refine (body_call Demo.b64decode "A" None "B" "1]" [] [] _ _ _ _).
      + repeat split; reflexivity.
      + split; reflexivity.
      + apply body_nil.
      + apply body_nil. }
  split; [reflexivity|split; [exact H|]].
  exact (closed_input_balance Demo.Event Demo.b64decode Demo.events_parse "A"
           "A" "1]" _ _ eq_refl H).
Defined.

(** The depths of the stack over the log above. *)
Example closed_log_depths :
  stack_depths Demo.Event Demo.b64decode Demo.events_parse "A"
    (closed_log "A" "1]"
       ["Program B invoke [2]"; "Program B consumed 5 of 9 units";
        "Program B success"; "Program log: AQID"; "Program log: not-base64!!"]
       ["Program B invoke [1]"; "Program B success"])
  = [1; 2; 2; 1; 1; 1; 0; 1; 0].
Proof. reflexivity. Qed.

(** The claim of a return to depth 1, with as many pushes as pops, fails
    on the shortest well-formed input: the success line pops the entry
    that [__init__] seeded, and the scan ends with an empty stack, after
    one pop and no push. *)
Lemma depth_one_counterexample :
  well_formed Demo.b64decode "A" "A" "1]" [] []
  /\ closed_log "A" "1]" [] [] = ["Program A invoke [1]"; "Program A success"]
  /\ ~ (exists (t : list (obs Demo.Event)) (execution : ExecutionContext),
          parse_logs_execution Demo.Event Demo.b64decode Demo.events_parse "A"
            (closed_log "A" "1]" [] [])
          = (t, Ok execution)
          /\ List.length (stack execution) = 1)
  /\ ~ (exists (t : list (obs Demo.Event)) (execution : ExecutionContext),
          parse_logs_execution Demo.Event Demo.b64decode Demo.events_parse "A"
            (closed_log "A" "1]" [] [])
          = (t, Ok execution)
          /\ pushes t = pops t).
Proof.
  split; [|split; [reflexivity|split]].
  - split; [repeat split; reflexivity|].
    split; [split; reflexivity|].
    split; apply body_nil.
  - intros (t & execution & Hrun & Hdepth).
    vm_compute in Hrun.
    injection Hrun as <- <-.
    discriminate Hdepth.
  - intros (t & execution & Hrun & Hbalance).
    vm_compute in Hrun.
    injection Hrun as <- <-.
    discriminate Hbalance.
Qed.

Lemma only_target_or_cpi_pushed_witness :
  ExecutionContext_init (Some "Program 11111111 invoke [1]")
  = Ok {| stack := ["11111111"] |}
  /\ exists seed : string,
       {| stack := ["11111111"] |} = {| stack := [seed] |}
       /\ Forall (fun execution => seeded_stack "Fg6PaFpo" seed (stack execution))
            (states Demo.Event Demo.b64decode Demo.events_parse "Fg6PaFpo"
               {| stack := ["11111111"] |}
               ["Program Fg6PaFpo invoke [2]"; "Program Fg6PaFpo success"]).
Proof.
  split; [reflexivity|].
  exact (proj2 (only_target_or_cpi_pushed Demo.Event Demo.b64decode
                  Demo.events_parse "Fg6PaFpo"
                  ["Program 11111111 invoke [1]";
                   "Program Fg6PaFpo invoke [2]"; "Program Fg6PaFpo success"])
           "Program 11111111 invoke [1]"
           ["Program Fg6PaFpo invoke [2]"; "Program Fg6PaFpo success"]
           {| stack := ["11111111"] |} eq_refl eq_refl).
Defined.

(** The seeded entry is the identifier of the outermost program, here
    another program than the target. *)
Example seeded_entry_of_another_program :
  map stack
    (states Demo.Event Demo.b64decode Demo.events_parse "Fg6PaFpo"
       {| stack := ["11111111"] |}
       ["Program Fg6PaFpo invoke [2]"; "Program Fg6PaFpo success"])
  = [["11111111"; "Fg6PaFpo"]; ["11111111"]].
Proof. reflexivity. Qed.
